(** * Aspect extraction of setfit.span.aspect_extractor

    A shallow embedding of [Aspect] and [AspectExtractor] from
    [src/setfit/span/aspect_extractor.py].  The spaCy [Doc] is the list of
    its tokens; indexing a token out of range raises [IndexError], modelled
    by the error monad [res].  Aspects are values; the in-place mutations of
    the source ([expand], the ordinal update, list assignment and [del]) are
    written as explicit state passing over the aspect list of one sentence. *)

From Stdlib Require Import String List Bool Arith Lia ZArith.
Import ListNotations.
Open Scope string_scope.
Open Scope list_scope.

(** ** Python exceptions and the error monad *)

Inductive py_exc := IndexError.

Inductive res (A : Type) : Type :=
| Ok : A -> res A
| Err : py_exc -> res A.
Arguments Ok {A} _.
Arguments Err {A} _.

Definition bind {A B} (m : res A) (k : A -> res B) : res B :=
  match m with Ok a => k a | Err e => Err e end.

Notation "x <- m ;; k" := (bind m (fun x => k))
  (at level 61, m at next level, right associativity).
Notation "' p <- m ;; k" := (bind m (fun x => match x with p => k end))
  (at level 61, p pattern, m at next level, right associativity).

(** ** Tokens and documents (spaCy, read-only) *)

(** A spaCy token.  [whitespace_] is [' '] or [''] in spaCy; it is kept
    here as the boolean "has a trailing space".  [left_edge] is
    [token.left_edge.i]. *)
Record token := mk_token {
  text : string;
  lower_ : string;
  pos_ : string;
  whitespace_ : bool;
  left_edge : nat
}.

Definition doc := list token.

(** [doc[k]] for a non-negative index. *)
Definition get (d : doc) (k : nat) : res token :=
  match nth_error d k with Some t => Ok t | None => Err IndexError end.

(** [doc[k]] for any Python integer: negative indices count from the end. *)
Definition py_get (d : doc) (k : Z) : res token :=
  let k' := if (k <? 0)%Z then (Z.of_nat (length d) + k)%Z else k in
  if (k' <? 0)%Z then Err IndexError else get d (Z.to_nat k').

(** [token.text_with_ws] *)
Definition text_with_ws (t : token) : string :=
  text t ++ (if whitespace_ t then " " else "").

(** [Span.text] of a list of tokens: the texts with their whitespace,
    without the trailing whitespace of the last token. *)
Fixpoint tokens_text (ts : list token) : string :=
  match ts with
  | [] => ""
  | [t] => text t
  | t :: ts' => text_with_ws t ++ tokens_text ts'
  end.

(** [doc[a:b]] (slices clamp to the document) *)
Definition slice (d : doc) (a b : nat) : list token :=
  firstn (b - a) (skipn a d).

Definition span_text (d : doc) (a b : nat) : string :=
  tokens_text (slice d a b).

(** ** Python membership tests *)

(** [x in (s1, s2, ...)] for a tuple of strings *)
Definition in_tuple (x : string) (tup : list string) : bool :=
  existsb (String.eqb x) tup.
Arguments in_tuple : simpl never.

(** [x in s] for two strings: substring test *)
Fixpoint str_contains (s x : string) : bool :=
  String.prefix x s ||
  match s with
  | EmptyString => false
  | String _ s' => str_contains s' x
  end.

(** ** class Aspect *)

Definition MAX_EXPANSION_LEFT : nat := 2.
Definition MAX_EXPANSION_RIGHT : nat := 3.

(** [label] and [categories] are never read by the extractor and are
    left out. *)
Record aspect := mk_aspect {
  start : nat;
  stop : nat;
  _context_start : option nat;
  _context_stop : option nat;
  _expansion_left : nat;
  _expansion_right : nat;
  ordinal : nat
}.

(** [Aspect(doc, start, stop, context_start, context_stop)] *)
Definition new_aspect (start stop : nat) (cs ce : option nat) : aspect :=
  mk_aspect start stop cs ce 0 0 0.

Definition context_start (a : aspect) : nat :=
  match _context_start a with None => start a | Some c => c end.

Definition context_stop (a : aspect) : nat :=
  match _context_stop a with None => stop a | Some c => c end.

Definition set_ordinal (a : aspect) (o : nat) : aspect :=
  mk_aspect (start a) (stop a) (_context_start a) (_context_stop a)
            (_expansion_left a) (_expansion_right a) o.

Definition separators : list string := [","; ";"].

(** The second [if] of [expand]. *)
Definition expand_right (d : doc) (a : aspect) : res (bool * aspect) :=
  if Nat.ltb (context_stop a) (length d) && Nat.ltb (_expansion_right a) MAX_EXPANSION_RIGHT
  then
    t <- get d (context_stop a) ;;
    if negb (in_tuple (text t) separators) then
      Ok (true, mk_aspect (start a) (stop a) (_context_start a)
                          (Some (context_stop a + 1))
                          (_expansion_left a) (_expansion_right a + 1)
                          (ordinal a))
    else Ok (false, a)
  else Ok (false, a).

(** [Aspect.expand] returns the success flag and the updated aspect. *)
Definition expand (d : doc) (a : aspect) : res (bool * aspect) :=
  if Nat.ltb 0 (context_start a) && Nat.ltb (_expansion_left a) MAX_EXPANSION_LEFT
  then
    t <- get d (context_start a - 1) ;;
    if negb (in_tuple (text t) separators) then
      Ok (true, mk_aspect (start a) (stop a) (Some (context_start a - 1))
                          (_context_stop a)
                          (_expansion_left a + 1) (_expansion_right a)
                          (ordinal a))
    else expand_right d a
  else expand_right d a.

(** [Aspect.text] and [Aspect.context] *)
Definition aspect_text (d : doc) (a : aspect) : string :=
  span_text d (start a) (stop a).

Definition aspect_context (d : doc) (a : aspect) : string :=
  span_text d (context_start a) (context_stop a).

(** [Aspect.__eq__] against another aspect compares the contexts ... *)
Definition aspect_eqb (d : doc) (a b : aspect) : bool :=
  String.eqb (aspect_context d a) (aspect_context d b).

(** ... and against a string compares the reduced text. *)
Definition aspect_eqb_str (d : doc) (a : aspect) (s : string) : bool :=
  String.eqb (aspect_text d a) s.

(** ** class AspectExtractor *)

Definition NON_NOUN_ASPECTS : list string :=
  ["acted"; "directed"; "edited"; "emotionally"; "filmed"; "visually"; "written"].

Definition CHUNK_EXCEPTIONS : list string :=
  ["emotional"; "musical"; "visual"; "cinematic"; "generated"; "set"; "special"; "comic";
   "another"; "other";
   "'s"; "-"; "/"; ","; "and"].

Definition CHUNK_STOP_WORDS : list string := ["level"; "minute"; "minutes"].

Definition MOVIE_SYNONYMS : list string :=
  ["entry"; "flick"; "film"; "mess"; "movie"; "installment"; "version"].

(** [('NOUN')] is the string ["NOUN"], not a one-element tuple. *)
Definition POS_WHITELIST : string := "NOUN".

Definition NOUN_SUBSTITUTE : string := "overall".

(** [pos in self.POS_WHITELIST] *)
Definition in_pos_whitelist (pos : string) : bool :=
  str_contains POS_WHITELIST pos.
Arguments in_pos_whitelist : simpl never.

(** [range(a, b)] and [range(b - 1, a - 1, -1)] for [0 <= a] *)
Definition range (a b : nat) : list nat := seq a (b - a).
Definition range_down (a b : nat) : list nat := rev (range a b).

(** *** _reduce_noun_chunk *)

(** The first loop: the first token that is neither [X], [PUNCT] nor
    ["'s"]; [start] when there is none. *)
Fixpoint find_full_start (d : doc) (idx : list nat) (full_start : nat) : res nat :=
  match idx with
  | [] => Ok full_start
  | i :: idx' =>
      t <- get d i ;;
      if negb (in_tuple (pos_ t) ["X"; "PUNCT"]) && negb (String.eqb (lower_ t) "'s")
      then Ok i
      else find_full_start d idx' full_start
  end.

(** The second loop, from [stop - 1] down to [full_start]: [Ok None] is the
    [return None], [Ok (Some r)] the value of [reduced_start] after the loop. *)
Fixpoint scan_back (d : doc) (full_start stop : nat) (idx : list nat)
  : res (option nat) :=
  match idx with
  | [] => Ok (Some full_start)
  | i :: idx' =>
      ti <- get d i ;;
      movie <- (if in_tuple (lower_ ti) MOVIE_SYNONYMS
                then tf <- get d full_start ;; Ok (String.eqb (lower_ tf) "this")
                else Ok false) ;;
      if movie then Ok (Some full_start)
      else if in_tuple (lower_ ti) CHUNK_STOP_WORDS
              || (negb (in_pos_whitelist (pos_ ti))
                  && negb (in_tuple (lower_ ti) CHUNK_EXCEPTIONS))
      then
        if Nat.eqb i (stop - 1) then Ok None
        else
          tn <- get d (i + 1) ;;
          if in_tuple (text tn) ["'s"; "-"; "/"; ","; "and"]
          then Ok (Some (Nat.min (i + 3) (stop - 1)))
          else Ok (Some (i + 1))
      else scan_back d full_start stop idx'
  end.

Definition reduce_noun_chunk (d : doc) (start stop : nat) : res (option aspect) :=
  full_start <- find_full_start d (range start stop) start ;;
  r <- scan_back d full_start stop (range_down full_start stop) ;;
  match r with
  | None => Ok None
  | Some reduced_start =>
      Ok (Some (new_aspect reduced_start stop (Some full_start) (Some stop)))
  end.

(** *** __call__, per document *)

(** Collecting aspect chunks: the loop over [range(len(doc) - 1, -1, -1)]
    with [min_pos] and front insertion into [aspects]. *)
Fixpoint collect_loop (d : doc) (idx : list nat) (min_pos : nat)
         (aspects : list aspect) : res (list aspect) :=
  match idx with
  | [] => Ok aspects
  | i :: idx' =>
      if Nat.leb min_pos i then collect_loop d idx' min_pos aspects
      else
        word <- get d i ;;
        if in_pos_whitelist (pos_ word) then
          chunk <- reduce_noun_chunk d (left_edge word) (i + 1) ;;
          match chunk with
          | Some c =>
              if negb (aspect_eqb_str d c "")
              then collect_loop d idx' (context_start c) (c :: aspects)
              else collect_loop d idx' min_pos aspects
          | None => collect_loop d idx' min_pos aspects
          end
        else if in_tuple (lower_ word) NON_NOUN_ASPECTS then
          collect_loop d idx' i (new_aspect i (i + 1) None None :: aspects)
        else collect_loop d idx' min_pos aspects
  end.

Definition collect_aspects (d : doc) : res (list aspect) :=
  collect_loop d (range_down 0 (length d)) (length d) [].

(** Python list access, assignment and deletion, raising out of range. *)
Definition lget {A} (l : list A) (k : nat) : res A :=
  match nth_error l k with Some x => Ok x | None => Err IndexError end.

Fixpoint list_set {A} (l : list A) (k : nat) (x : A) : list A :=
  match l, k with
  | [], _ => []
  | _ :: l', 0 => x :: l'
  | y :: l', S k' => y :: list_set l' k' x
  end.

Fixpoint list_del {A} (l : list A) (k : nat) : list A :=
  match l, k with
  | [], _ => []
  | _ :: l', 0 => l'
  | y :: l', S k' => y :: list_del l' k'
  end.

Definition lset {A} (l : list A) (k : nat) (x : A) : res (list A) :=
  if Nat.ltb k (length l) then Ok (list_set l k x) else Err IndexError.

Definition ldel {A} (l : list A) (k : nat) : res (list A) :=
  if Nat.ltb k (length l) then Ok (list_del l k) else Err IndexError.

(** The condition of the join loop. *)
Definition join_cond (d : doc) (prev cur : aspect) : res bool :=
  t <- py_get d (Z.of_nat (stop prev) - 1) ;;
  if negb (whitespace_ t) then Ok (Nat.eqb (stop prev) (start cur))
  else Ok false.

Definition joined (prev cur : aspect) : aspect :=
  new_aspect (start prev) (stop cur)
             (Some (context_start prev)) (Some (context_stop cur)).

(** Joining chunks: the loop over [range(len(aspects) - 1, 0, -1)]. *)
Fixpoint join_loop (d : doc) (idx : list nat) (aspects : list aspect)
  : res (list aspect) :=
  match idx with
  | [] => Ok aspects
  | i :: idx' =>
      prev <- lget aspects (i - 1) ;;
      cur <- lget aspects i ;;
      c <- join_cond d prev cur ;;
      if c then
        aspects1 <- lset aspects (i - 1) (joined prev cur) ;;
        aspects2 <- ldel aspects1 i ;;
        join_loop d idx' aspects2
      else join_loop d idx' aspects
  end.

Definition join_chunks (d : doc) (aspects : list aspect) : res (list aspect) :=
  join_loop d (range_down 1 (length aspects)) aspects.

(** *** Ordinals and context expansion *)

(** A [logging.warning] of the source: the index [i] and the text of
    [aspects[i]] (the sentence text is implicit). *)
Definition warning := (nat * string)%type.

(** How many more successful calls of [expand] an aspect allows. *)
Definition expansion_budget (a : aspect) : nat :=
  (MAX_EXPANSION_LEFT - _expansion_left a) + (MAX_EXPANSION_RIGHT - _expansion_right a).

(** [while aspects[i] == aspects[j]: ...]; the boolean tells whether the
    loop ended by the [logging.warning] and [break].  Each pass of the
    body either breaks or lowers the sum of the two budgets, so the fuel
    given by [expand_while_fuel] is never exhausted (lemma
    [expand_while_fuel_enough]). *)
Fixpoint expand_while (d : doc) (fuel : nat) (ai aj : aspect)
  : res (aspect * aspect * bool) :=
  match fuel with
  | 0 => Ok (ai, aj, false)
  | S fuel' =>
      if aspect_eqb d ai aj then
        '(e1, ai') <- expand d ai ;;
        '(e2, aj') <- expand d aj ;;
        if negb (e1 || e2) then Ok (ai', aj', true)
        else expand_while d fuel' ai' aj'
      else Ok (ai, aj, false)
  end.

Definition expand_while_fuel (ai aj : aspect) : nat :=
  S (expansion_budget ai + expansion_budget aj).

Definition dstate := (list aspect * list warning)%type.

(** The body of the inner loop for the pair [(i, j)]. *)
Definition disambiguate_pair (d : doc) (i j : nat) (st : dstate) : res dstate :=
  let '(aspects, log) := st in
  ai <- lget aspects i ;;
  aj <- lget aspects j ;;
  if String.eqb (aspect_text d ai) (aspect_text d aj) then
    let aj1 := set_ordinal aj (ordinal ai + 1) in
    '(ai', aj', warned) <- expand_while d (expand_while_fuel ai aj1) ai aj1 ;;
    aspects1 <- lset aspects i ai' ;;
    aspects2 <- lset aspects1 j aj' ;;
    Ok (aspects2, if warned then log ++ [(i, aspect_text d ai')] else log)
  else Ok st.

Fixpoint disambiguate_inner (d : doc) (i : nat) (js : list nat) (st : dstate)
  : res dstate :=
  match js with
  | [] => Ok st
  | j :: js' => st' <- disambiguate_pair d i j st ;; disambiguate_inner d i js' st'
  end.

Fixpoint disambiguate_outer (d : doc) (n : nat) (is_ : list nat) (st : dstate)
  : res dstate :=
  match is_ with
  | [] => Ok st
  | i :: is' =>
      st' <- disambiguate_inner d i (range (i + 1) n) st ;;
      disambiguate_outer d n is' st'
  end.

(** [for i in range(len(aspects) - 1): for j in range(i + 1, len(aspects))] *)
Definition disambiguate (d : doc) (aspects : list aspect) : res dstate :=
  disambiguate_outer d (length aspects) (range 0 (length aspects - 1)) (aspects, []).

(** [[Aspect(doc, token.i, token.i + 1) for token in doc if token.lower_ == 'overall']] *)
Fixpoint substitute_from (ts : list token) (i : nat) : list aspect :=
  match ts with
  | [] => []
  | t :: ts' =>
      if String.eqb (lower_ t) NOUN_SUBSTITUTE
      then new_aspect i (i + 1) None None :: substitute_from ts' (S i)
      else substitute_from ts' (S i)
  end.

Definition substitute (d : doc) : list aspect := substitute_from d 0.

(** The body of [AspectExtractor.__call__] for one parsed document: its
    aspect list and the warnings logged. *)
Definition extract_doc (d : doc) : res dstate :=
  aspects <- collect_aspects d ;;
  aspects <- join_chunks d aspects ;;
  match aspects with
  | [] => Ok (substitute d, [])
  | _ => disambiguate d aspects
  end.

(** [__call__] over the documents produced by [self.nlp.pipe(texts)]. *)
Fixpoint extract (docs : list doc) : res (list (list aspect)) :=
  match docs with
  | [] => Ok []
  | d :: ds =>
      '(aspects, _) <- extract_doc d ;;
      rest <- extract ds ;;
      Ok (aspects :: rest)
  end.

(** ** Sample documents *)

Definition tk (w : string) (pos : string) (le : nat) : token :=
  mk_token w w pos true le.

(** "acting acting acting acting acting": five nouns, each its own chunk. *)
Definition doc_acting5 : doc :=
  [tk "acting" "NOUN" 0; tk "acting" "NOUN" 1; tk "acting" "NOUN" 2;
   tk "acting" "NOUN" 3; tk "acting" "NOUN" 4].

(** ** Properties used by the claims *)

(** The bounds of an aspect in a document of [n] tokens. *)
Definition aspect_bounds (n : nat) (a : aspect) : Prop :=
  context_start a <= start a /\ start a <= stop a /\
  stop a <= context_stop a /\ context_stop a <= n.

(** ... together with a non-empty reduced span. *)
Definition aspect_wf (n : nat) (a : aspect) : Prop :=
  aspect_bounds n a /\ start a < stop a.

(** The token source contract: a token's subtree starts at or before it. *)
Definition doc_wf (d : doc) : Prop :=
  forall i t, nth_error d i = Some t -> left_edge t <= i.

Fixpoint doc_wfb_from (ts : list token) (i : nat) : bool :=
  match ts with
  | [] => true
  | t :: ts' => Nat.leb (left_edge t) i && doc_wfb_from ts' (S i)
  end.

Definition doc_wfb (d : doc) : bool := doc_wfb_from d 0.

(** Adjacent aspects of a list: the earlier one stops before the later
    one starts. *)
Fixpoint ordered (l : list aspect) : Prop :=
  match l with
  | [] => True
  | a :: l' =>
      match l' with [] => True | b :: _ => stop a <= start b end /\ ordered l'
  end.

Definition spans (l : list aspect) : list (nat * nat) :=
  map (fun a => (start a, stop a)) l.

Definition default_token : token := mk_token "" "" "" false 0.
Definition default_aspect : aspect := new_aspect 0 0 None None.

(** [doc[i]] for an index known to be in range. *)
Definition tok (d : doc) (i : nat) : token := nth i d default_token.

Create HintDb extract.

Ltac inv H := inversion H; subst; clear H.

(** *** Sample documents and auxiliary definitions of the proofs *)

Definition head_ge (mp : nat) (l : list aspect) : Prop :=
  match l with [] => True | b :: _ => mp <= start b end.

(** The join loop as a right fold: [join_step a r] is one iteration, with
    [a = aspects[i-1]] and [r] the already joined suffix from [i] on. *)
Definition join_step (d : doc) (a : aspect) (r : list aspect) : res (list aspect) :=
  match r with
  | [] => Ok [a]
  | b :: r' =>
      c <- join_cond d a b ;;
      if c then Ok (joined a b :: r') else Ok (a :: r)
  end.

Fixpoint join_onto (d : doc) (pre suf : list aspect) : res (list aspect) :=
  match pre with
  | [] => Ok suf
  | a :: pre' => r <- join_onto d pre' suf ;; join_step d a r
  end.

Definition join_pass (d : doc) (l : list aspect) : res (list aspect) :=
  join_onto d l [].

Definition head_start (l : list aspect) : option nat := option_map start (hd_error l).

(** No adjacent pair of [l] satisfies the join condition. *)
Fixpoint no_join (d : doc) (l : list aspect) : Prop :=
  match l with
  | [] => True
  | a :: l' =>
      match l' with [] => True | b :: _ => join_cond d a b = Ok false end
      /\ no_join d l'
  end.

(** The guard of the first [if] of [expand]. *)
Definition left_permitted (d : doc) (a : aspect) : Prop :=
  0 < context_start a /\ _expansion_left a < MAX_EXPANSION_LEFT /\
  in_tuple (text (tok d (context_start a - 1))) separators = false.

(** The guard of the second [if] of [expand]. *)
Definition right_permitted (d : doc) (a : aspect) : Prop :=
  context_stop a < length d /\ _expansion_right a < MAX_EXPANSION_RIGHT /\
  in_tuple (text (tok d (context_stop a))) separators = false.

Definition grow_left (a : aspect) : aspect :=
  mk_aspect (start a) (stop a) (Some (context_start a - 1)) (_context_stop a)
            (_expansion_left a + 1) (_expansion_right a) (ordinal a).

Definition grow_right (a : aspect) : aspect :=
  mk_aspect (start a) (stop a) (_context_start a) (Some (context_stop a + 1))
            (_expansion_left a) (_expansion_right a + 1) (ordinal a).

(** "Overall great" *)
Definition doc_overall : doc := [tk "overall" "ADV" 0; tk "great" "ADJ" 1].

(** "sub-plot", written without spaces and split into three chunks. *)
Definition doc_subplot : doc :=
  [mk_token "sub" "sub" "NOUN" false 0; mk_token "-" "-" "PUNCT" false 1;
   mk_token "plot" "plot" "NOUN" true 0].

Definition subplot_chunks : list aspect :=
  [new_aspect 0 1 None None; new_aspect 1 2 None None; new_aspect 2 3 None None].

(** [n] successive calls of [aspects[i].expand()] on one aspect. *)
Fixpoint expand_iter (d : doc) (n : nat) (a : aspect) : res aspect :=
  match n with
  | 0 => Ok a
  | S n' => '(_, a') <- expand d a ;; expand_iter d n' a'
  end.

(** "I liked this long movie" *)
Definition doc_this_long_movie : doc :=
  [tk "I" "PRON" 0; tk "liked" "VERB" 0; tk "this" "DET" 2; tk "long" "ADJ" 3;
   tk "movie" "NOUN" 2].

(** The number of aspects before [i] whose reduced text is that of aspect [k];
    [occurrences_before d l k k] is the 0-based occurrence index of [k]. *)
Definition occurrences_before (d : doc) (l : list aspect) (i k : nat) : nat :=
  length (filter (fun m => String.eqb (aspect_text d (nth m l default_aspect))
                                      (aspect_text d (nth k l default_aspect)))
                 (seq 0 i)).

(** The five one-token chunks of [doc_acting5], as the scanner builds them. *)
Definition acting5_chunks : list aspect :=
  map (fun k => new_aspect k (k + 1) (Some k) (Some (k + 1))) (range 0 5).


(** The test of the second loop of [_reduce_noun_chunk] that ends the
    reduced span: a chunk stop word, or a non-noun outside the exceptions. *)
Definition chunk_cut (t : token) : bool :=
  in_tuple (lower_ t) CHUNK_STOP_WORDS
  || (negb (in_pos_whitelist (pos_ t)) && negb (in_tuple (lower_ t) CHUNK_EXCEPTIONS)).


(** "the great plot" *)
Definition doc_great_plot : doc :=
  [tk "the" "DET" 2; tk "great" "ADJ" 2; tk "plot" "NOUN" 0].

(** Adjacent aspects of a list: the earlier context stops before the later
    context starts. *)
Fixpoint ctx_ordered (l : list aspect) : Prop :=
  match l with
  | [] => True
  | a :: l' =>
      match l' with [] => True | b :: _ => context_stop a <= context_start b end
      /\ ctx_ordered l'
  end.

Definition head_ctx_ge (mp : nat) (l : list aspect) : Prop :=
  match l with [] => True | b :: _ => mp <= context_start b end.

(** The last token of the reduced span passes the scanner's noun test, or is
    a whitelisted non-noun aspect. *)
Definition aspect_head_ok (d : doc) (a : aspect) : bool :=
  in_pos_whitelist (pos_ (tok d (stop a - 1)))
  || in_tuple (lower_ (tok d (stop a - 1))) NON_NOUN_ASPECTS.

(** The token indices of the reduced spans, in list order. *)
Definition covered (l : list aspect) : list nat :=
  flat_map (fun a => range (start a) (stop a)) l.

(** [a] is [a0] after some calls of [expand]: same reduced span, and each
    context side moved by exactly the growth of its expansion counter. *)
Definition grown (a0 a : aspect) : Prop :=
  start a = start a0 /\ stop a = stop a0 /\
  context_start a + _expansion_left a = context_start a0 + _expansion_left a0 /\
  context_stop a + _expansion_right a0 = context_stop a0 + _expansion_right a /\
  _expansion_left a0 <= _expansion_left a /\ _expansion_right a0 <= _expansion_right a.

Definition within_caps (a : aspect) : Prop :=
  _expansion_left a <= MAX_EXPANSION_LEFT /\ _expansion_right a <= MAX_EXPANSION_RIGHT.

(** No other aspect of [l] has the reduced text of aspect [k]. *)
Definition unique_text (d : doc) (l : list aspect) (k : nat) : Prop :=
  forall m, m < length l -> m <> k ->
    aspect_text d (nth m l default_aspect) <> aspect_text d (nth k l default_aspect).

(** A logged warning [(i, text)]: [text] is the reduced text of aspect [i],
    which a later aspect of the list shares. *)
Definition warning_ok (d : doc) (l : list aspect) (w : warning) : Prop :=
  snd w = aspect_text d (nth (fst w) l default_aspect) /\
  exists j, fst w < j < length l /\ aspect_text d (nth j l default_aspect) = snd w.

(** "acting acting" and "acting plot acting", each token its own chunk. *)
Definition doc_acting2 : doc := [tk "acting" "NOUN" 0; tk "acting" "NOUN" 1].

Definition acting2_chunks : list aspect :=
  [new_aspect 0 1 (Some 0) (Some 1); new_aspect 1 2 (Some 1) (Some 2)].

Definition doc_acting_plot : doc :=
  [tk "acting" "NOUN" 0; tk "plot" "NOUN" 1; tk "acting" "NOUN" 2].

Definition acting_plot_chunks : list aspect :=
  map (fun k => new_aspect k (k + 1) (Some k) (Some (k + 1))) (range 0 3).

(** *** Indexing *)

Lemma get_ok d k : k < length d -> get d k = Ok (tok d k).
Proof.
  intro H. unfold get, tok.
  destruct (nth_error d k) eqn:E.
  - f_equal. symmetry. apply nth_error_nth. exact E.
  - apply nth_error_None in E. lia.
Qed.

Lemma get_Ok d k t : get d k = Ok t -> k < length d /\ t = tok d k.
Proof.
  unfold get, tok. destruct (nth_error d k) eqn:E; intro H; inv H.
  split.
  - apply nth_error_Some. congruence.
  - symmetry. apply nth_error_nth. exact E.
Qed.

Lemma doc_wfb_from_spec ts i0 :
  doc_wfb_from ts i0 = true ->
  forall i t, nth_error ts i = Some t -> left_edge t <= i0 + i.
Proof.
  revert i0. induction ts as [|t0 ts IH]; intros i0 H i t Hi.
  - destruct i; discriminate.
  - simpl in H. apply andb_prop in H as [H1 H2]. apply Nat.leb_le in H1.
    destruct i as [|i]; simpl in Hi.
    + inv Hi. lia.
    + specialize (IH _ H2 i t Hi). lia.
Qed.

Lemma doc_wfb_spec d : doc_wfb d = true -> doc_wf d.
Proof.
  intros H i t Hi. exact (doc_wfb_from_spec d 0 H i t Hi).
Qed.

Lemma in_range a b i : In i (range a b) <-> a <= i < b.
Proof. unfold range. rewrite in_seq. lia. Qed.

Lemma in_range_down a b i : In i (range_down a b) <-> a <= i < b.
Proof. unfold range_down. rewrite <- in_rev. apply in_range. Qed.

Lemma range_down_top a b :
  a < b -> range_down a b = (b - 1) :: range_down a (b - 1).
Proof.
  intro H. unfold range_down, range.
  replace (b - a) with (S (b - 1 - a)) by lia.
  rewrite seq_S, rev_app_distr. simpl. f_equal. lia.
Qed.

(** *** The chunk reducer *)

Lemma find_full_start_ok d idx fs0 :
  (forall i, In i idx -> i < length d) ->
  exists fs, find_full_start d idx fs0 = Ok fs /\ (fs = fs0 \/ In fs idx).
Proof.
  induction idx as [|i idx IH]; intros Hidx; simpl.
  - eauto.
  - rewrite get_ok by (apply Hidx; left; reflexivity). simpl.
    destruct (_ && _).
    + exists i. split; [reflexivity | right; left; reflexivity].
    + destruct IH as [fs [H1 H2]].
      * intros k Hk. apply Hidx. right. exact Hk.
      * exists fs. split; [exact H1|]. destruct H2; [left | right; right]; assumption.
Qed.

Lemma full_start_bounds d start stop :
  start < stop -> stop <= length d ->
  exists fs, find_full_start d (range start stop) start = Ok fs /\ start <= fs < stop.
Proof.
  intros H1 H2.
  destruct (find_full_start_ok d (range start stop) start) as [fs [Hfs Hin]].
  - intros i Hi. apply in_range in Hi. lia.
  - exists fs. split; [exact Hfs|]. destruct Hin as [-> | Hin]; [lia|].
    apply in_range in Hin. lia.
Qed.

Lemma scan_back_ok d fs stop idx :
  fs < stop -> stop <= length d ->
  (forall i, In i idx -> fs <= i < stop) ->
  exists r, scan_back d fs stop idx = Ok r /\
            (forall rs, r = Some rs -> fs <= rs < stop).
Proof.
  intros Hfs Hstop. induction idx as [|i idx IH]; intros Hidx; simpl.
  - exists (Some fs). split; [reflexivity|]. intros rs Hr. inv Hr. lia.
  - assert (Hi : fs <= i < stop) by (apply Hidx; left; reflexivity).
    rewrite get_ok by lia. simpl.
    destruct (in_tuple (lower_ (tok d i)) MOVIE_SYNONYMS); simpl;
      [rewrite get_ok by lia; simpl; destruct (String.eqb _ "this"); simpl|].
    1: { exists (Some fs). split; [reflexivity|]. intros rs Hr. inv Hr. lia. }
    all: destruct (_ || _); simpl.
    all: try (destruct IH as [r [H1 H2]];
              [intros k Hk; apply Hidx; right; exact Hk | exists r; split; assumption]).
    all: destruct (Nat.eqb i (stop - 1)) eqn:E;
         [exists None; split; [reflexivity | discriminate]|].
    all: apply Nat.eqb_neq in E; rewrite get_ok by lia; simpl;
         destruct (in_tuple _ _);
         [exists (Some (Nat.min (i + 3) (stop - 1))) | exists (Some (i + 1))];
         (split; [reflexivity | intros rs Hr; inv Hr; lia]).
Qed.

Lemma reduce_noun_chunk_ok d s e :
  s < e -> e <= length d ->
  exists r, reduce_noun_chunk d s e = Ok r /\
    forall a, r = Some a ->
      aspect_wf (length d) a /\ s <= context_start a /\
      stop a = e /\ context_stop a = e /\ ordinal a = 0.
Proof.
  intros H1 H2. unfold reduce_noun_chunk.
  destruct (full_start_bounds d s e H1 H2) as [fs [Hfs Hb]].
  rewrite Hfs. simpl.
  destruct (scan_back_ok d fs e (range_down fs e)) as [r [Hr Hrs]];
    [lia | lia | intros i Hi; apply in_range_down in Hi; lia |].
  rewrite Hr. simpl. destruct r as [rs|].
  - specialize (Hrs rs eq_refl).
    eexists; split; [reflexivity|]. intros a Ha. inv Ha.
    unfold aspect_wf, aspect_bounds, context_start, context_stop; simpl. lia.
  - eexists; split; [reflexivity|]. discriminate.
Qed.

(** *** Collecting chunks *)

Lemma nth_error_tok d i : i < length d -> nth_error d i = Some (tok d i).
Proof.
  intro H. unfold tok. destruct (nth_error d i) eqn:E.
  - f_equal. symmetry. apply nth_error_nth. exact E.
  - apply nth_error_None in E. lia.
Qed.

Lemma collect_loop_ok d idx mp acc :
  doc_wf d -> (forall i, In i idx -> i < length d) -> mp <= length d ->
  Forall (aspect_wf (length d)) acc -> ordered acc -> head_ge mp acc ->
  Forall (fun a => ordinal a = 0) acc ->
  exists r, collect_loop d idx mp acc = Ok r /\
    Forall (aspect_wf (length d)) r /\ ordered r /\
    Forall (fun a => ordinal a = 0) r.
Proof.
  intros Hd. revert mp acc.
  induction idx as [|i idx IH]; intros mp acc Hidx Hmp Hwf Hord Hhd Hor; simpl.
  - eauto.
  - assert (Hi : i < length d) by (apply Hidx; left; reflexivity).
    assert (Hidx' : forall k, In k idx -> k < length d)
      by (intros k Hk; apply Hidx; right; exact Hk).
    destruct (Nat.leb mp i) eqn:Emp; [apply IH; assumption|].
    apply Nat.leb_gt in Emp.
    rewrite get_ok by exact Hi. simpl.
    destruct (in_pos_whitelist (pos_ (tok d i))).
    + assert (Hle : left_edge (tok d i) <= i)
        by (apply (Hd i); apply nth_error_tok; exact Hi).
      destruct (reduce_noun_chunk_ok d (left_edge (tok d i)) (i + 1))
        as [r [Hr Hspec]]; [lia | lia |].
      rewrite Hr. simpl. destruct r as [c|]; [|apply IH; assumption].
      destruct (Hspec c eq_refl) as [Hcwf [_ [Hcstop [_ Hcord]]]].
      destruct (negb _); [|apply IH; assumption].
      apply IH; try assumption.
      * destruct Hcwf as [[? [? [? ?]]] ?]. lia.
      * constructor; assumption.
      * simpl. split; [|exact Hord]. destruct acc as [|b acc]; [exact I|].
        simpl in Hhd. lia.
      * simpl. destruct Hcwf as [[? _] _]. exact H.
      * constructor; assumption.
    + destruct (in_tuple (lower_ (tok d i)) NON_NOUN_ASPECTS);
        [|apply IH; assumption].
      apply IH; try assumption.
      * lia.
      * constructor; [|assumption].
        unfold aspect_wf, aspect_bounds, context_start, context_stop; simpl. lia.
      * simpl. split; [|exact Hord]. destruct acc as [|b acc]; [exact I|].
        simpl in Hhd. simpl. lia.
      * simpl. lia.
      * constructor; [reflexivity | assumption].
Qed.

Lemma collect_aspects_ok d :
  doc_wf d ->
  exists r, collect_aspects d = Ok r /\
    Forall (aspect_wf (length d)) r /\ ordered r /\
    Forall (fun a => ordinal a = 0) r.
Proof.
  intro Hd. unfold collect_aspects. apply collect_loop_ok; simpl; auto.
  intros i Hi. apply in_range_down in Hi. lia.
Qed.

(** *** Joining chunks *)

Lemma bind_ret {A} (m : res A) : bind m Ok = m.
Proof. destruct m; reflexivity. Qed.

Lemma bind_assoc {A B C} (m : res A) (f : A -> res B) (g : B -> res C) :
  bind (bind m f) g = bind m (fun x => bind (f x) g).
Proof. destruct m; reflexivity. Qed.

Lemma join_onto_app d l1 l2 s :
  join_onto d (l1 ++ l2) s = bind (join_onto d l2 s) (join_onto d l1).
Proof.
  induction l1 as [|a l1 IH]; simpl.
  - symmetry. apply bind_ret.
  - rewrite IH, bind_assoc. reflexivity.
Qed.

Lemma list_set_app {A} (l1 l2 : list A) k x :
  list_set (l1 ++ l2) (length l1 + k) x = l1 ++ list_set l2 k x.
Proof. induction l1; simpl; congruence. Qed.

Lemma list_del_app {A} (l1 l2 : list A) k :
  list_del (l1 ++ l2) (length l1 + k) = l1 ++ list_del l2 k.
Proof. induction l1; simpl; congruence. Qed.

Lemma join_loop_onto d pre s :
  s <> [] ->
  join_loop d (range_down 1 (S (length pre))) (pre ++ s) = join_onto d pre s.
Proof.
  revert s. induction pre as [|x pre IH] using rev_ind; intros s Hs.
  - reflexivity.
  - rewrite length_app. simpl length.
    rewrite range_down_top by lia.
    replace (S (length pre + 1) - 1) with (S (length pre)) by lia.
    rewrite join_onto_app. simpl join_onto.
    destruct s as [|b s]; [congruence|]. cbn [join_loop].
    replace (S (length pre) - 1) with (length pre) by lia.
    unfold lget.
    rewrite <- app_assoc. cbn [app].
    rewrite !nth_error_app2 by lia.
    rewrite Nat.sub_diag.
    replace (S (length pre) - length pre) with 1 by lia. cbn [nth_error bind].
    cbn [join_step].
    destruct (join_cond d x b) as [c|e]; cbn [bind]; [|reflexivity].
    destruct c.
    + unfold lset, ldel.
      rewrite length_app. cbn [length].
      replace (Nat.ltb (length pre) (length pre + S (S (length s)))) with true
        by (symmetry; apply Nat.ltb_lt; lia).
      rewrite <- (Nat.add_0_r (length pre)) at 1. rewrite list_set_app.
      cbn [list_set bind]. rewrite length_app. cbn [length].
      replace (Nat.ltb (S (length pre)) (length pre + S (S (length s)))) with true
        by (symmetry; apply Nat.ltb_lt; lia).
      replace (list_del (pre ++ joined x b :: b :: s) (S (length pre)))
        with (pre ++ list_del (joined x b :: b :: s) 1)
        by (rewrite <- list_del_app; f_equal; lia).
      cbn [list_del bind].
      apply IH. discriminate.
    + apply IH. discriminate.
Qed.

Lemma join_chunks_pass d l : join_chunks d l = join_pass d l.
Proof.
  unfold join_chunks, join_pass.
  destruct l as [|y l] using rev_ind; [reflexivity|].
  rewrite length_app. simpl length. rewrite Nat.add_1_r.
  rewrite join_loop_onto by discriminate.
  rewrite join_onto_app. reflexivity.
Qed.

Lemma join_cond_spec d a b :
  0 < stop a <= length d ->
  exists c, join_cond d a b = Ok c /\
    (c = true <-> whitespace_ (tok d (stop a - 1)) = false /\ stop a = start b).
Proof.
  intro H. unfold join_cond, py_get.
  replace ((Z.of_nat (stop a) - 1 <? 0)%Z) with false by (symmetry; apply Z.ltb_ge; lia).
  replace ((Z.of_nat (stop a) - 1 <? 0)%Z) with false by (symmetry; apply Z.ltb_ge; lia).
  replace (Z.to_nat (Z.of_nat (stop a) - 1)) with (stop a - 1) by lia.
  rewrite get_ok by lia. cbn [bind].
  destruct (whitespace_ (tok d (stop a - 1))); cbn [negb].
  - exists false. split; [reflexivity|]. split; [discriminate | intros [? _]; discriminate].
  - eexists. split; [reflexivity|]. rewrite Nat.eqb_eq. tauto.
Qed.

Lemma join_cond_prev d a a' b :
  stop a = stop a' -> join_cond d a b = join_cond d a' b.
Proof. intro H. unfold join_cond. rewrite H. reflexivity. Qed.

Lemma join_pass_no_join d l :
  no_join d l -> join_pass d l = Ok l.
Proof.
  unfold join_pass. induction l as [|a l IH]; intros H; [reflexivity|].
  destruct H as [H1 H2]. cbn [join_onto]. rewrite (IH H2).
  destruct l as [|b l]; [reflexivity|]. cbn [bind join_step].
  cbn in H1. rewrite H1. reflexivity.
Qed.

Lemma join_pass_out d l :
  Forall (fun a => 0 < stop a <= length d) l ->
  exists r, join_pass d l = Ok r /\ no_join d r /\
    Forall (fun a => 0 < stop a <= length d) r.
Proof.
  unfold join_pass. induction l as [|a l IH]; intros Hl.
  - exists []. repeat split; constructor.
  - inv Hl. destruct (IH H2) as [r [Hr [Hnj HP]]].
    cbn [join_onto]. rewrite Hr. cbn [bind join_step].
    destruct r as [|b r]; cbn [join_step].
    + exists [a]. repeat split; auto.
    + destruct (join_cond_spec d a b H1) as [c [Hc _]]. rewrite Hc. cbn [bind].
      inv HP. destruct c.
      * exists (joined a b :: r). destruct Hnj as [Hbr Hnj]. repeat split.
        -- destruct r as [|c r]; [exact I|].
           rewrite (join_cond_prev d (joined a b) b c) by reflexivity. exact Hbr.
        -- exact Hnj.
        -- constructor; [exact H3 | exact H4].
      * destruct Hnj as [Hbr Hnj]. exists (a :: b :: r). repeat split; auto.
Qed.

Lemma join_pass_ok d l :
  Forall (aspect_wf (length d)) l -> ordered l ->
  exists r, join_pass d l = Ok r /\
    Forall (aspect_wf (length d)) r /\ ordered r /\ head_start r = head_start l.
Proof.
  unfold join_pass. induction l as [|a l IH]; intros Hl Hord.
  - exists []. repeat split; constructor.
  - inv Hl. destruct Hord as [Hal Hord].
    destruct (IH H2 Hord) as [r [Hr [Hwf [Hord' Hhd]]]].
    cbn [join_onto]. rewrite Hr. cbn [bind join_step].
    destruct r as [|b r]; cbn [join_step].
    + exists [a]. repeat split; auto.
    + assert (Ha : 0 < stop a <= length d)
        by (destruct H1 as [[? [? [? ?]]] ?]; lia).
      destruct (join_cond_spec d a b Ha) as [c [Hc _]]. rewrite Hc. cbn [bind].
      destruct l as [|a0 l]; [discriminate|].
      simpl in Hhd. inv Hhd. cbn in Hal.
      inv Hwf. destruct Hord' as [Hbr Hord'].
      destruct c.
      * exists (joined a b :: r). repeat split.
        -- constructor; [|assumption].
           destruct H1 as [[? [? [? ?]]] ?]. destruct H4 as [[? [? [? ?]]] ?].
           unfold aspect_wf, aspect_bounds, joined, new_aspect,
             context_start, context_stop in *; simpl in *. lia.
        -- destruct r as [|c r]; [exact I|]. exact Hbr.
        -- exact Hord'.
      * exists (a :: b :: r). repeat split.
        -- constructor; [assumption|]. constructor; assumption.
        -- simpl. rewrite H0. exact Hal.
        -- destruct r; [exact I|]. exact Hbr.
        -- exact Hord'.
Qed.

(** *** Expanding the context *)

Lemma expand_right_cases d a :
  (right_permitted d a /\ expand_right d a = Ok (true, grow_right a)) \/
  (~ right_permitted d a /\ expand_right d a = Ok (false, a)).
Proof.
  unfold expand_right, right_permitted.
  destruct (Nat.ltb (context_stop a) (length d)) eqn:E1;
  destruct (Nat.ltb (_expansion_right a) MAX_EXPANSION_RIGHT) eqn:E2;
  cbn [andb];
  try (right; split; [|reflexivity];
       rewrite ?Nat.ltb_ge in *; intros [? [? ?]]; lia).
  apply Nat.ltb_lt in E1. apply Nat.ltb_lt in E2.
  rewrite get_ok by exact E1. cbn [bind].
  destruct (in_tuple (text (tok d (context_stop a))) separators) eqn:E3; cbn [negb].
  - right. split; [|reflexivity]. intros [_ [_ H]]. congruence.
  - left. split; [tauto | reflexivity].
Qed.

Lemma expand_cases d a :
  context_start a <= length d ->
  (left_permitted d a /\ expand d a = Ok (true, grow_left a)) \/
  (~ left_permitted d a /\ right_permitted d a /\
     expand d a = Ok (true, grow_right a)) \/
  (~ left_permitted d a /\ ~ right_permitted d a /\ expand d a = Ok (false, a)).
Proof.
  intro Hcs. unfold expand.
  assert (Hnl : ~ left_permitted d a ->
    (right_permitted d a /\ expand_right d a = Ok (true, grow_right a) \/
     ~ right_permitted d a /\ expand_right d a = Ok (false, a)) ->
    (left_permitted d a /\ expand_right d a = Ok (true, grow_left a)) \/
    (~ left_permitted d a /\ right_permitted d a /\
       expand_right d a = Ok (true, grow_right a)) \/
    (~ left_permitted d a /\ ~ right_permitted d a /\
       expand_right d a = Ok (false, a))) by tauto.
  destruct (Nat.ltb 0 (context_start a)) eqn:E1;
  destruct (Nat.ltb (_expansion_left a) MAX_EXPANSION_LEFT) eqn:E2;
  cbn [andb];
  try (apply Hnl; [rewrite ?Nat.ltb_ge in *; unfold left_permitted; intros [? [? ?]]; lia
                  | apply expand_right_cases]).
  apply Nat.ltb_lt in E1. apply Nat.ltb_lt in E2.
  rewrite get_ok by lia. cbn [bind].
  destruct (in_tuple (text (tok d (context_start a - 1))) separators) eqn:E3; cbn [negb].
  - apply Hnl; [unfold left_permitted; intros [_ [_ H]]; congruence
               | apply expand_right_cases].
  - left. split; [unfold left_permitted; tauto | reflexivity].
Qed.

Lemma expand_ok d a :
  aspect_bounds (length d) a ->
  exists b a', expand d a = Ok (b, a') /\ aspect_bounds (length d) a' /\
    start a' = start a /\ stop a' = stop a /\ ordinal a' = ordinal a /\
    (b = false -> a' = a) /\
    (b = true -> expansion_budget a' < expansion_budget a).
Proof.
  intro Hb. pose proof Hb as [H1 [H2 [H3 H4]]].
  destruct (expand_cases d a) as [[Hl He] | [[Hl [Hr He]] | [Hl [Hr He]]]]; [lia | | |].
  - destruct Hl as [Hl1 [Hl2 _]].
    do 2 eexists. split; [exact He|].
    unfold aspect_bounds, grow_left, expansion_budget, context_start, context_stop,
      MAX_EXPANSION_LEFT in *; cbn -[Nat.sub Nat.add] in *.
    repeat split; intros; try discriminate; lia.
  - destruct Hr as [Hr1 [Hr2 _]].
    do 2 eexists. split; [exact He|].
    unfold aspect_bounds, grow_right, expansion_budget, context_start, context_stop,
      MAX_EXPANSION_RIGHT in *; cbn -[Nat.sub Nat.add] in *.
    repeat split; intros; try discriminate; lia.
  - do 2 eexists. split; [exact He|]. repeat split; intros; auto. discriminate.
Qed.

(** *** Disambiguation *)

Lemma expand_while_ok d fuel ai aj :
  aspect_bounds (length d) ai -> aspect_bounds (length d) aj ->
  exists ai' aj' w, expand_while d fuel ai aj = Ok (ai', aj', w) /\
    aspect_bounds (length d) ai' /\ aspect_bounds (length d) aj' /\
    start ai' = start ai /\ stop ai' = stop ai /\ ordinal ai' = ordinal ai /\
    start aj' = start aj /\ stop aj' = stop aj /\ ordinal aj' = ordinal aj /\
    (expansion_budget ai + expansion_budget aj < fuel ->
       w = true \/ aspect_eqb d ai' aj' = false).
Proof.
  revert ai aj. induction fuel as [|fuel IH]; intros ai aj Hi Hj.
  - exists ai, aj, false. split; [reflexivity|]. split; [exact Hi|]. split; [exact Hj|].
    repeat split; intros; lia.
  - cbn [expand_while].
    destruct (aspect_eqb d ai aj) eqn:Eq.
    2: { exists ai, aj, false. split; [reflexivity|]. split; [exact Hi|].
         split; [exact Hj|]. repeat split; auto. }
    destruct (expand_ok d ai Hi)
      as [e1 [ai1 [He1 [Hi1 [Hs1 [Ht1 [Ho1 [Hf1 Ht1']]]]]]]].
    destruct (expand_ok d aj Hj)
      as [e2 [aj1 [He2 [Hj1 [Hs2 [Ht2 [Ho2 [Hf2 Ht2']]]]]]]].
    rewrite He1. cbn [bind]. rewrite He2. cbn [bind].
    destruct (e1 || e2) eqn:Ee; cbn [negb].
    + destruct (IH ai1 aj1 Hi1 Hj1)
        as [ai' [aj' [w [Hw [Hb1 [Hb2 [? [? [? [? [? [? Hend]]]]]]]]]]]].
      exists ai', aj', w. split; [exact Hw|]. split; [exact Hb1|]. split; [exact Hb2|].
      repeat split; try congruence.
      intro Hbud. apply Hend.
      apply orb_true_iff in Ee as [Ee | Ee]; subst.
      * specialize (Ht1' eq_refl).
        destruct e2; [specialize (Ht2' eq_refl) | rewrite (Hf2 eq_refl)]; lia.
      * specialize (Ht2' eq_refl).
        destruct e1; [specialize (Ht1' eq_refl) | rewrite (Hf1 eq_refl)]; lia.
    + exists ai1, aj1, true. split; [reflexivity|]. split; [exact Hi1|].
      split; [exact Hj1|]. repeat split; auto.
Qed.

(** The fuel of [expand_while] is never the reason the loop stops. *)
Lemma expand_while_fuel_enough d fuel ai aj :
  aspect_bounds (length d) ai -> aspect_bounds (length d) aj ->
  expansion_budget ai + expansion_budget aj < fuel ->
  expand_while d (S fuel) ai aj = expand_while d fuel ai aj.
Proof.
  revert ai aj. induction fuel as [|fuel IH]; intros ai aj Hi Hj Hf; [lia|].
  cbn [expand_while]. destruct (aspect_eqb d ai aj); [|reflexivity].
  destruct (expand_ok d ai Hi) as [e1 [ai1 [He1 [Hi1 [_ [_ [_ [Hf1 Ht1]]]]]]]].
  destruct (expand_ok d aj Hj) as [e2 [aj1 [He2 [Hj1 [_ [_ [_ [Hf2 Ht2]]]]]]]].
  rewrite He1. cbn [bind]. rewrite He2. cbn [bind].
  destruct (e1 || e2) eqn:Ee; cbn [negb]; [|reflexivity].
  change (expand_while d (S fuel) ai1 aj1 = expand_while d fuel ai1 aj1).
  apply IH; [assumption | assumption |].
  apply orb_true_iff in Ee as [Ee | Ee]; subst.
  - specialize (Ht1 eq_refl).
    destruct e2; [specialize (Ht2 eq_refl) | rewrite (Hf2 eq_refl)]; lia.
  - specialize (Ht2 eq_refl).
    destruct e1; [specialize (Ht1 eq_refl) | rewrite (Hf1 eq_refl)]; lia.
Qed.

Lemma lget_ok {A} (l : list A) k dflt : k < length l -> lget l k = Ok (nth k l dflt).
Proof.
  intro H. unfold lget. rewrite (nth_error_nth' l dflt H). reflexivity.
Qed.

Lemma lset_ok {A} (l : list A) k x : k < length l -> lset l k x = Ok (list_set l k x).
Proof. intro H. unfold lset. apply Nat.ltb_lt in H. rewrite H. reflexivity. Qed.

Lemma length_list_set {A} (l : list A) k x : length (list_set l k x) = length l.
Proof. revert k. induction l; intros [|k]; simpl; auto. Qed.

Lemma nth_list_set {A} (l : list A) k x m dflt :
  k < length l ->
  nth m (list_set l k x) dflt = if Nat.eqb m k then x else nth m l dflt.
Proof.
  revert k m. induction l as [|y l IH]; intros k m Hk; simpl in Hk; [lia|].
  destruct k as [|k], m as [|m]; cbn [list_set nth Nat.eqb]; try reflexivity.
  apply IH. lia.
Qed.

Lemma Forall_list_set {A} (P : A -> Prop) l k x :
  Forall P l -> P x -> Forall P (list_set l k x).
Proof.
  revert k. induction l as [|y l IH]; intros k Hl Hx; [constructor|].
  inv Hl. destruct k; simpl; constructor; auto.
Qed.

Lemma spans_list_set l k x :
  k < length l -> start x = start (nth k l default_aspect) ->
  stop x = stop (nth k l default_aspect) ->
  spans (list_set l k x) = spans l.
Proof.
  revert k. induction l as [|y l IH]; intros k Hk H1 H2; simpl in Hk; [lia|].
  destruct k; simpl in *.
  - rewrite H1, H2. reflexivity.
  - f_equal. apply IH; auto. lia.
Qed.

Lemma spans_length l l' : spans l = spans l' -> length l = length l'.
Proof. intro H. rewrite <- (length_map (fun a => (start a, stop a)) l), <- (length_map (fun a => (start a, stop a)) l'). unfold spans in H. rewrite H. reflexivity. Qed.

Lemma spans_nth l l' k :
  spans l = spans l' ->
  start (nth k l default_aspect) = start (nth k l' default_aspect) /\
  stop (nth k l default_aspect) = stop (nth k l' default_aspect).
Proof.
  intro H.
  assert (E : nth k (spans l) (start default_aspect, stop default_aspect)
              = nth k (spans l') (start default_aspect, stop default_aspect))
    by (rewrite H; reflexivity).
  unfold spans in E.
  rewrite (map_nth (fun a => (start a, stop a)) l default_aspect k),
          (map_nth (fun a => (start a, stop a)) l' default_aspect k) in E.
  inv E. auto.
Qed.

Lemma disambiguate_pair_spec d i j l log :
  i < j -> j < length l -> Forall (aspect_bounds (length d)) l ->
  exists l' log', disambiguate_pair d i j (l, log) = Ok (l', log') /\
    Forall (aspect_bounds (length d)) l' /\ spans l' = spans l /\
    (forall k, k <> j ->
       ordinal (nth k l' default_aspect) = ordinal (nth k l default_aspect)) /\
    ordinal (nth j l' default_aspect) =
      (if String.eqb (aspect_text d (nth i l default_aspect))
                     (aspect_text d (nth j l default_aspect))
       then ordinal (nth i l default_aspect) + 1
       else ordinal (nth j l default_aspect)) /\
    (aspect_text d (nth i l default_aspect) = aspect_text d (nth j l default_aspect) ->
       aspect_eqb d (nth i l' default_aspect) (nth j l' default_aspect) = false \/
       exists w, log' = log ++ [w]) /\
    (exists ws, log' = log ++ ws).
Proof.
  intros Hij Hj Hl.
  assert (Hi : i < length l) by lia.
  unfold disambiguate_pair.
  rewrite (lget_ok l i default_aspect Hi). cbn [bind].
  rewrite (lget_ok l j default_aspect Hj). cbn [bind].
  set (ai := nth i l default_aspect) in *.
  set (aj := nth j l default_aspect) in *.
  assert (Hbi : aspect_bounds (length d) ai) by (apply Forall_nth; assumption).
  assert (Hbj : aspect_bounds (length d) aj) by (apply Forall_nth; assumption).
  destruct (String.eqb (aspect_text d ai) (aspect_text d aj)) eqn:Et.
  - set (aj1 := set_ordinal aj (ordinal ai + 1)).
    assert (Hb1 : aspect_bounds (length d) aj1) by exact Hbj.
    destruct (expand_while_ok d (expand_while_fuel ai aj1) ai aj1 Hbi Hb1)
      as [ai' [aj' [w [Hw [Hbi' [Hbj' [Hs1 [Ht1 [Ho1 [Hs2 [Ht2 [Ho2 Hend]]]]]]]]]]]].
    rewrite Hw. cbn [bind].
    rewrite (lset_ok l i ai' Hi). cbn [bind].
    rewrite (lset_ok (list_set l i ai') j aj') by (rewrite length_list_set; exact Hj).
    cbn [bind].
    assert (Hn : forall k, nth k (list_set (list_set l i ai') j aj') default_aspect =
              if Nat.eqb k j then aj' else if Nat.eqb k i then ai'
              else nth k l default_aspect).
    { intro k. rewrite nth_list_set by (rewrite length_list_set; exact Hj).
      rewrite nth_list_set by exact Hi. reflexivity. }
    eexists. eexists. split; [reflexivity|].
    split; [apply Forall_list_set; [apply Forall_list_set|]; assumption|].
    split.
    { rewrite spans_list_set.
      - apply spans_list_set; auto.
      - rewrite length_list_set. exact Hj.
      - rewrite nth_list_set by exact Hi.
        replace (Nat.eqb j i) with false by (symmetry; apply Nat.eqb_neq; lia).
        rewrite Hs2. reflexivity.
      - rewrite nth_list_set by exact Hi.
        replace (Nat.eqb j i) with false by (symmetry; apply Nat.eqb_neq; lia).
        rewrite Ht2. reflexivity. }
    split.
    { intros k Hk. rewrite Hn.
      replace (Nat.eqb k j) with false by (symmetry; apply Nat.eqb_neq; exact Hk).
      destruct (Nat.eqb k i) eqn:Eki; [apply Nat.eqb_eq in Eki; subst k; exact Ho1 | reflexivity]. }
    split.
    { rewrite Hn, Nat.eqb_refl. rewrite Ho2. reflexivity. }
    split.
    { intros _. rewrite !Hn, Nat.eqb_refl.
      replace (Nat.eqb i j) with false by (symmetry; apply Nat.eqb_neq; lia).
      rewrite Nat.eqb_refl.
      destruct (Hend ltac:(unfold expand_while_fuel; lia)) as [-> | He].
      - right. eexists. reflexivity.
      - left. exact He. }
    { destruct w; eexists; [reflexivity | symmetry; apply app_nil_r]. }
  - exists l, log. repeat split; auto.
    + intro Heq. apply String.eqb_neq in Et. contradiction.
    + exists []. symmetry. apply app_nil_r.
Qed.

Lemma disambiguate_inner_ok d i js l log :
  (forall j, In j js -> i < j < length l) ->
  Forall (aspect_bounds (length d)) l ->
  exists l' log', disambiguate_inner d i js (l, log) = Ok (l', log') /\
    Forall (aspect_bounds (length d)) l' /\ spans l' = spans l.
Proof.
  revert l log. induction js as [|j js IH]; intros l log Hjs Hl.
  - exists l, log. auto.
  - destruct (Hjs j (or_introl eq_refl)) as [Hij Hj].
    destruct (disambiguate_pair_spec d i j l log Hij Hj Hl)
      as [l1 [log1 [Hp [Hl1 [Hs1 _]]]]].
    cbn [disambiguate_inner]. rewrite Hp. cbn [bind].
    destruct (IH l1 log1) as [l' [log' [H1 [H2 H3]]]].
    + intros k Hk. rewrite (spans_length _ _ Hs1). apply Hjs. right. exact Hk.
    + exact Hl1.
    + exists l', log'. split; [exact H1|]. split; [exact H2|]. congruence.
Qed.

Lemma disambiguate_outer_ok d n is_ l log :
  n = length l -> (forall i, In i is_ -> i < n) ->
  Forall (aspect_bounds (length d)) l ->
  exists l' log', disambiguate_outer d n is_ (l, log) = Ok (l', log') /\
    Forall (aspect_bounds (length d)) l' /\ spans l' = spans l.
Proof.
  revert l log. induction is_ as [|i is_ IH]; intros l log Hn His Hl.
  - exists l, log. auto.
  - cbn [disambiguate_outer].
    destruct (disambiguate_inner_ok d i (range (i + 1) n) l log)
      as [l1 [log1 [H1 [H2 H3]]]].
    + intros j Hj. apply in_range in Hj. lia.
    + exact Hl.
    + rewrite H1. cbn [bind].
      destruct (IH l1 log1) as [l' [log' [H4 [H5 H6]]]].
      * rewrite (spans_length _ _ H3). exact Hn.
      * intros k Hk. apply His. right. exact Hk.
      * exact H2.
      * exists l', log'. split; [exact H4|]. split; [exact H5|]. congruence.
Qed.

Lemma disambiguate_ok d l :
  Forall (aspect_bounds (length d)) l ->
  exists l' log, disambiguate d l = Ok (l', log) /\
    Forall (aspect_bounds (length d)) l' /\ spans l' = spans l.
Proof.
  intro Hl. unfold disambiguate. apply disambiguate_outer_ok; auto.
  intros i Hi. apply in_range in Hi. lia.
Qed.

(** *** The whole pipeline *)

Lemma ordered_spans l l' : spans l = spans l' -> ordered l -> ordered l'.
Proof.
  revert l'. induction l as [|a l IH]; intros l' Hs Ho.
  - destruct l'; [exact I | discriminate].
  - destruct l' as [|a' l']; [discriminate|]. inv Hs. destruct Ho as [Hab Ho].
    split; [|apply IH; assumption].
    destruct l as [|b l], l' as [|b' l']; try discriminate; try exact I.
    simpl in H2. inv H2. lia.
Qed.

Lemma nonempty_spans l l' :
  spans l = spans l' -> Forall (fun a => start a < stop a) l ->
  Forall (fun a => start a < stop a) l'.
Proof.
  revert l'. induction l as [|a l IH]; intros l' Hs Hl.
  - destruct l'; [constructor | discriminate].
  - destruct l' as [|a' l']; [discriminate|]. inv Hs. inv Hl.
    constructor; [lia | apply IH; assumption].
Qed.

Lemma substitute_from_spec ts i :
  Forall (fun a => i <= start a /\ start a < i + length ts /\ stop a = S (start a) /\
                   _context_start a = None /\ _context_stop a = None /\
                   ordinal a = 0)
         (substitute_from ts i) /\
  ordered (substitute_from ts i).
Proof.
  revert i. induction ts as [|t ts IH]; intro i; [split; [constructor | exact I]|].
  cbn [substitute_from]. destruct (IH (S i)) as [H1 H2].
  destruct (String.eqb (lower_ t) NOUN_SUBSTITUTE).
  - split.
    + constructor.
      * cbn. repeat split; try reflexivity; lia.
      * eapply Forall_impl; [|exact H1]. intros a (Ha1 & Ha2 & Ha3 & Ha4).
        cbn [length]. repeat split; try tauto; lia.
    + split; [|exact H2].
      destruct (substitute_from ts (S i)) as [|b r]; [exact I|].
      inv H1. cbn. lia.
  - split; [|exact H2]. eapply Forall_impl; [|exact H1]. intros a (Ha1 & Ha2 & Ha3 & Ha4).
    cbn [length]. repeat split; try tauto; lia.
Qed.

Lemma extract_doc_ok d :
  doc_wf d ->
  exists r, extract_doc d = Ok r /\
    Forall (aspect_bounds (length d)) (fst r) /\ ordered (fst r) /\
    Forall (fun a => start a < stop a) (fst r).
Proof.
  intro Hd. unfold extract_doc.
  destruct (collect_aspects_ok d Hd) as [s [Hs [Hswf [Hsord _]]]].
  rewrite Hs. cbn [bind]. rewrite join_chunks_pass.
  destruct (join_pass_ok d s Hswf Hsord) as [r [Hr [Hrwf [Hrord _]]]].
  rewrite Hr. cbn [bind].
  assert (Hrb : Forall (aspect_bounds (length d)) r)
    by (eapply Forall_impl; [|exact Hrwf]; intros a [Ha _]; exact Ha).
  assert (Hrne : Forall (fun a => start a < stop a) r)
    by (eapply Forall_impl; [|exact Hrwf]; intros a [_ Ha]; exact Ha).
  destruct r as [|a r].
  - eexists. split; [reflexivity|]. cbn [fst].
    destruct (substitute_from_spec d 0) as [H1 H2]. unfold substitute.
    split; [|split; [exact H2|]].
    + eapply Forall_impl; [|exact H1]. intros a [? [? [? [Hc1 [Hc2 _]]]]].
      unfold aspect_bounds, context_start, context_stop. rewrite Hc1, Hc2. lia.
    + eapply Forall_impl; [|exact H1]. intros a [? [? [? _]]]. lia.
  - destruct (disambiguate_ok d (a :: r) Hrb) as [l' [log [H1 [H2 H3]]]].
    rewrite H1. eexists. split; [reflexivity|]. cbn [fst].
    split; [exact H2|]. split.
    + apply (ordered_spans (a :: r)); [symmetry; exact H3 | exact Hrord].
    + apply (nonempty_spans (a :: r)); [symmetry; exact H3 | exact Hrne].
Qed.

(** ** Claims *)

(** C1: every aspect produced by the chunk reducer, and every aspect of the
    final list of a sentence, satisfies
    [0 <= context_start <= start <= stop <= context_stop <= len(doc)]
    (the [0 <=] is the type [nat]), and [expand] preserves these bounds. *)
Theorem C1_aspect_bounds d :
  doc_wf d ->
  (forall s e a, s < e -> e <= length d ->
     reduce_noun_chunk d s e = Ok (Some a) -> aspect_bounds (length d) a) /\
  (exists r, extract_doc d = Ok r /\ Forall (aspect_bounds (length d)) (fst r)) /\
  (forall a, aspect_bounds (length d) a ->
     exists b a', expand d a = Ok (b, a') /\ aspect_bounds (length d) a').
Proof.
  intro Hd. split; [|split].
  - intros s e a H1 H2 Ha.
    destruct (reduce_noun_chunk_ok d s e H1 H2) as [r [Hr Hspec]].
    rewrite Hr in Ha. inv Ha. destruct (Hspec a eq_refl) as [[Hb _] _]. exact Hb.
  - destruct (extract_doc_ok d Hd) as [r [H1 [H2 _]]]. eauto.
  - intros a Ha. destruct (expand_ok d a Ha) as [b [a' [H1 [H2 _]]]]. eauto.
Qed.

Lemma C1_aspect_bounds_witness :
  doc_wf doc_acting5 /\
  exists r, extract_doc doc_acting5 = Ok r /\
            Forall (aspect_bounds (length doc_acting5)) (fst r).
Proof.
  assert (H : doc_wf doc_acting5) by (apply doc_wfb_spec; reflexivity).
  split; [exact H|]. exact (proj1 (proj2 (C1_aspect_bounds doc_acting5 H))).
Defined.

(** C2: in the final aspect list of a sentence every reduced span is
    non-empty and each aspect stops at or before the start of the next
    one, so the spans are disjoint and in left-to-right order. *)
Theorem C2_final_list_ordered d :
  doc_wf d ->
  exists r, extract_doc d = Ok r /\ ordered (fst r) /\
            Forall (fun a => start a < stop a) (fst r).
Proof.
  intro Hd. destruct (extract_doc_ok d Hd) as [r [H1 [_ [H2 H3]]]]. eauto.
Qed.

Lemma C2_final_list_ordered_witness :
  doc_wf doc_acting5 /\
  exists r, extract_doc doc_acting5 = Ok r /\ ordered (fst r) /\
            Forall (fun a => start a < stop a) (fst r).
Proof.
  assert (H : doc_wf doc_acting5) by (apply doc_wfb_spec; reflexivity).
  split; [exact H | exact (C2_final_list_ordered doc_acting5 H)].
Defined.

(** *** The placeholder substitution *)

Lemma substitute_from_spans ts i :
  spans (substitute_from ts i) =
  map (fun k => (k, k + 1))
      (filter (fun k => String.eqb (lower_ (nth (k - i) ts default_token)) NOUN_SUBSTITUTE)
              (seq i (length ts))).
Proof.
  revert i. induction ts as [|t ts IH]; intro i; [reflexivity|].
  cbn [substitute_from length seq filter]. rewrite Nat.sub_diag. cbn [nth].
  rewrite (filter_ext_in
             (fun k => String.eqb (lower_ (nth (k - i) (t :: ts) default_token)) NOUN_SUBSTITUTE)
             (fun k => String.eqb (lower_ (nth (k - S i) ts default_token)) NOUN_SUBSTITUTE)).
  - destruct (String.eqb (lower_ t) NOUN_SUBSTITUTE); cbn [map spans]; rewrite <- IH; reflexivity.
  - intros k Hk. apply in_seq in Hk.
    replace (k - i) with (S (k - S i)) by lia. reflexivity.
Qed.

(** C4: when the chunks collected and joined for a sentence are none,
    the result is exactly the placeholder aspects: one single-token aspect
    [[i, i+1)] per token whose lowercased text is ["overall"], with context
    equal to the reduced span and ordinal 0, and nothing is logged (the
    disambiguation is not run). *)
Theorem C4_placeholder_substitution d s :
  collect_aspects d = Ok s -> join_chunks d s = Ok [] ->
  extract_doc d = Ok (substitute d, []) /\
  spans (substitute d) =
    map (fun i => (i, i + 1))
        (filter (fun i => String.eqb (lower_ (tok d i)) NOUN_SUBSTITUTE)
                (range 0 (length d))) /\
  Forall (fun a => stop a = start a + 1 /\ context_start a = start a /\
                   context_stop a = stop a /\ ordinal a = 0) (substitute d).
Proof.
  intros H1 H2. split; [|split].
  - unfold extract_doc. rewrite H1. cbn [bind]. rewrite H2. reflexivity.
  - unfold substitute. rewrite substitute_from_spans. unfold range, tok.
    rewrite ?Nat.sub_0_r. f_equal. apply filter_ext. intro k. rewrite Nat.sub_0_r. reflexivity.
  - unfold substitute. destruct (substitute_from_spec d 0) as [H _].
    eapply Forall_impl; [|exact H]. intros a (_ & _ & Hs & Hc1 & Hc2 & Ho).
    unfold context_start, context_stop. rewrite Hc1, Hc2. repeat split; auto; lia.
Qed.

Lemma C4_placeholder_substitution_witness :
  collect_aspects doc_overall = Ok [] /\ join_chunks doc_overall [] = Ok [] /\
  extract_doc doc_overall = Ok (substitute doc_overall, []).
Proof.
  assert (H1 : collect_aspects doc_overall = Ok []) by reflexivity.
  assert (H2 : join_chunks doc_overall [] = Ok []) by reflexivity.
  split; [exact H1|]. split; [exact H2|].
  exact (proj1 (C4_placeholder_substitution doc_overall [] H1 H2)).
Defined.

(** *** Rejection by the chunk reducer *)

Lemma scan_back_some d fs stop idx :
  stop <= length d -> fs < stop ->
  (forall i, In i idx -> fs <= i < stop - 1) ->
  exists rs, scan_back d fs stop idx = Ok (Some rs).
Proof.
  intros Hstop Hfs. induction idx as [|i idx IH]; intros Hidx; cbn [scan_back].
  - eauto.
  - assert (Hi : fs <= i < stop - 1) by (apply Hidx; left; reflexivity).
    assert (IH' : exists rs, scan_back d fs stop idx = Ok (Some rs))
      by (apply IH; intros k Hk; apply Hidx; right; exact Hk).
    rewrite get_ok by lia. cbn [bind].
    destruct (in_tuple (lower_ (tok d i)) MOVIE_SYNONYMS);
      [rewrite get_ok by lia; cbn [bind]; destruct (String.eqb _ "this"); cbn [bind];
       [eauto|] | cbn [bind]].
    all: destruct (_ || _); [|exact IH'].
    all: replace (Nat.eqb i (stop - 1)) with false by (symmetry; apply Nat.eqb_neq; lia).
    all: rewrite get_ok by lia; cbn [bind]; destruct (in_tuple _ _); eauto.
Qed.

(** C5: for a non-empty range inside the document the chunk reducer never
    raises, and it rejects the chunk (returns [None]) exactly when, at the
    last token [stop - 1], the movie-synonym / ['this'] exit does not fire
    and that token is a chunk stop word, or is outside the POS whitelist and
    not a chunk exception. *)
Theorem C5_reduce_rejection d s e :
  s < e -> e <= length d ->
  exists fs r, find_full_start d (range s e) s = Ok fs /\
    reduce_noun_chunk d s e = Ok r /\
    (r = None <->
       ~ (in_tuple (lower_ (tok d (e - 1))) MOVIE_SYNONYMS = true /\
          lower_ (tok d fs) = "this") /\
       (in_tuple (lower_ (tok d (e - 1))) CHUNK_STOP_WORDS = true \/
        (in_pos_whitelist (pos_ (tok d (e - 1))) = false /\
         in_tuple (lower_ (tok d (e - 1))) CHUNK_EXCEPTIONS = false))).
Proof.
  intros H1 H2.
  destruct (full_start_bounds d s e H1 H2) as [fs [Hfs Hb]].
  destruct (scan_back_some d fs e (range_down fs (e - 1)) H2 ltac:(lia))
    as [rs0 Hrs0]; [intros i Hi; apply in_range_down in Hi; lia|].
  unfold reduce_noun_chunk. rewrite Hfs. cbn [bind].
  rewrite (range_down_top fs e) by lia. cbn [scan_back].
  rewrite get_ok by lia. cbn [bind].
  destruct (in_tuple (lower_ (tok d (e - 1))) MOVIE_SYNONYMS) eqn:Em.
  - rewrite get_ok by lia. cbn [bind].
    destruct (String.eqb (lower_ (tok d fs)) "this") eqn:Et; cbn [bind].
    + apply String.eqb_eq in Et.
      eexists fs, _. split; [reflexivity|]. split; [reflexivity|].
      split; [discriminate | intros [Hn _]; exfalso; apply Hn; auto].
    + apply String.eqb_neq in Et.
      destruct (in_tuple (lower_ (tok d (e - 1))) CHUNK_STOP_WORDS) eqn:Es;
      destruct (in_pos_whitelist (pos_ (tok d (e - 1)))) eqn:Ep;
      destruct (in_tuple (lower_ (tok d (e - 1))) CHUNK_EXCEPTIONS) eqn:Ex;
      cbn [orb andb negb]; rewrite ?Nat.eqb_refl;
      try (eexists fs, _; split; [reflexivity|]; split; [reflexivity|];
           split; [intros _; split; [intros [_ ?]; contradiction | tauto] | reflexivity]);
      (eexists fs, _; split; [reflexivity|]; split;
         [rewrite Hrs0; reflexivity
         | split; [discriminate | intros [_ [Hc | [Hc1 Hc2]]]; discriminate]]).
  - destruct (in_tuple (lower_ (tok d (e - 1))) CHUNK_STOP_WORDS) eqn:Es;
    destruct (in_pos_whitelist (pos_ (tok d (e - 1)))) eqn:Ep;
    destruct (in_tuple (lower_ (tok d (e - 1))) CHUNK_EXCEPTIONS) eqn:Ex;
    cbn [orb andb negb]; rewrite ?Nat.eqb_refl;
    try (eexists fs, _; split; [reflexivity|]; split; [reflexivity|];
         split; [intros _; split; [intros [? _]; discriminate | tauto] | reflexivity]);
    (eexists fs, _; split; [reflexivity|]; split;
       [rewrite Hrs0; reflexivity
       | split; [discriminate | intros [_ [Hc | [Hc1 Hc2]]]; discriminate]]).
Qed.

Lemma C5_reduce_rejection_witness :
  0 < 1 /\ 1 <= length doc_overall /\
  reduce_noun_chunk doc_overall 0 1 = Ok None.
Proof.
  split; [lia|]. split; [cbn; lia|].
  destruct (C5_reduce_rejection doc_overall 0 1 ltac:(lia) ltac:(cbn; lia))
    as [fs [r [Hfs [Hr Hiff]]]].
  rewrite Hr. f_equal. apply Hiff.
  vm_compute in Hfs. inv Hfs. vm_compute.
  split; [intros [H _]; discriminate | right; split; reflexivity].
Defined.

(** *** Idempotence of the join loop *)

Lemma no_join_nth d l k a b :
  no_join d l -> nth_error l k = Some a -> nth_error l (S k) = Some b ->
  join_cond d a b = Ok false.
Proof.
  revert k. induction l as [|x l IH]; intros k Hnj Ha Hb; [destruct k; discriminate|].
  destruct Hnj as [H1 H2]. destruct k as [|k].
  - cbn in Ha, Hb. inv Ha. destruct l as [|y l]; [discriminate|]. cbn in Hb. inv Hb. exact H1.
  - exact (IH k H2 Ha Hb).
Qed.

(** C6: on aspects whose reduced span ends inside the document (as all
    collected aspects do), a second pass of the join loop returns its input
    unchanged; equivalently no adjacent pair of the output still has a last
    left token without trailing whitespace and [left.stop == right.start]. *)
Theorem C6_join_idempotent d l r :
  Forall (fun a => 0 < stop a <= length d) l ->
  join_chunks d l = Ok r ->
  join_chunks d r = Ok r /\
  (forall k a b, nth_error r k = Some a -> nth_error r (S k) = Some b ->
     ~ (whitespace_ (tok d (stop a - 1)) = false /\ stop a = start b)).
Proof.
  intros Hl Hr. rewrite join_chunks_pass in *.
  destruct (join_pass_out d l Hl) as [r' [Hr' [Hnj HP]]].
  rewrite Hr' in Hr. inv Hr.
  split; [apply join_pass_no_join; exact Hnj|].
  intros k a b Ha Hb.
  assert (HPa : 0 < stop a <= length d)
    by (rewrite Forall_forall in HP; apply HP; eapply nth_error_In; exact Ha).
  destruct (join_cond_spec d a b HPa) as [c [Hc Hiff]].
  rewrite (no_join_nth d r k a b Hnj Ha Hb) in Hc. inv Hc.
  intro H. apply Hiff in H. discriminate.
Qed.

Lemma C6_join_idempotent_witness :
  join_chunks doc_subplot subplot_chunks =
    Ok [new_aspect 0 3 (Some 0) (Some 3)] /\
  join_chunks doc_subplot [new_aspect 0 3 (Some 0) (Some 3)] =
    Ok [new_aspect 0 3 (Some 0) (Some 3)].
Proof.
  assert (H1 : Forall (fun a => 0 < stop a <= length doc_subplot) subplot_chunks)
    by (repeat constructor; cbn; lia).
  assert (H2 : join_chunks doc_subplot subplot_chunks =
               Ok [new_aspect 0 3 (Some 0) (Some 3)]) by reflexivity.
  split; [exact H2|].
  exact (proj1 (C6_join_idempotent doc_subplot subplot_chunks _ H1 H2)).
Defined.

(** *** Limits of [expand] *)

Lemma expand_iter_limits d n a :
  aspect_bounds (length d) a ->
  exists a', expand_iter d n a = Ok a' /\
    context_start a' <= context_start a /\
    context_start a - context_start a' <= MAX_EXPANSION_LEFT - _expansion_left a /\
    context_stop a <= context_stop a' /\
    context_stop a' - context_stop a <= MAX_EXPANSION_RIGHT - _expansion_right a.
Proof.
  revert a. induction n as [|n IH]; intros a Ha.
  - exists a. split; [reflexivity | lia].
  - cbn [expand_iter].
    destruct (expand_ok d a Ha) as [b [a1 [He1 [Ha1 _]]]].
    destruct (expand_cases d a) as [[Hl He] | [[Hl [Hr He]] | [Hl [Hr He]]]];
      [destruct Ha as [? [? [? ?]]]; lia | | |];
      rewrite He in He1; inv He1; rewrite He; cbn [bind];
      destruct (IH _ Ha1) as [a' [Hit G]]; exists a'; (split; [exact Hit|]).
    + destruct Hl as [Hl1 [Hl2 _]].
      unfold grow_left, context_start, context_stop, MAX_EXPANSION_LEFT,
        MAX_EXPANSION_RIGHT in *; cbn -[Nat.sub Nat.add] in *. lia.
    + destruct Hr as [Hr1 [Hr2 _]].
      unfold grow_right, context_start, context_stop, MAX_EXPANSION_LEFT,
        MAX_EXPANSION_RIGHT in *; cbn -[Nat.sub Nat.add] in *. lia.
    + exact G.
Qed.

(** C7: one call of [expand] on an aspect within the document either
    grows the context by one token on the left (when the left is
    permitted: [context_start > 0], fewer than 2 left expansions, and the
    token before the context is not [','] or [';']), or else by one token on
    the right (same conditions with 3 and the token after the context), or
    returns [False] and changes nothing when neither is permitted.  Over any
    number of calls the context grows by at most [2 - _expansion_left]
    tokens on the left and [3 - _expansion_right] on the right, i.e. at
    most 2 and 3 for an aspect as created (counters 0). *)
Theorem C7_expand_limits d a n :
  aspect_bounds (length d) a ->
  (exists b a', expand d a = Ok (b, a') /\ start a' = start a /\ stop a' = stop a /\
     ((b = true /\ left_permitted d a /\
       context_start a' = context_start a - 1 /\ context_stop a' = context_stop a /\
       _expansion_left a' = _expansion_left a + 1 /\
       _expansion_right a' = _expansion_right a) \/
      (b = true /\ ~ left_permitted d a /\ right_permitted d a /\
       context_start a' = context_start a /\ context_stop a' = context_stop a + 1 /\
       _expansion_left a' = _expansion_left a /\
       _expansion_right a' = _expansion_right a + 1) \/
      (b = false /\ ~ left_permitted d a /\ ~ right_permitted d a /\ a' = a))) /\
  (exists a', expand_iter d n a = Ok a' /\
     context_start a' <= context_start a /\
     context_start a - context_start a' <= MAX_EXPANSION_LEFT - _expansion_left a /\
     context_stop a <= context_stop a' /\
     context_stop a' - context_stop a <= MAX_EXPANSION_RIGHT - _expansion_right a).
Proof.
  intro Ha. split; [|apply expand_iter_limits; exact Ha].
  destruct (expand_cases d a) as [[Hl He] | [[Hl [Hr He]] | [Hl [Hr He]]]];
    [destruct Ha as [? [? [? ?]]]; lia | | |].
  - exists true, (grow_left a). split; [exact He|]. split; [reflexivity|].
    split; [reflexivity|]. left.
    exact (conj eq_refl (conj Hl (conj eq_refl (conj eq_refl (conj eq_refl eq_refl))))).
  - exists true, (grow_right a). split; [exact He|]. split; [reflexivity|].
    split; [reflexivity|]. right; left.
    exact (conj eq_refl (conj Hl (conj Hr (conj eq_refl (conj eq_refl
             (conj eq_refl eq_refl)))))).
  - exists false, a. split; [exact He|]. split; [reflexivity|].
    split; [reflexivity|]. right; right.
    exact (conj eq_refl (conj Hl (conj Hr eq_refl))).
Qed.

Lemma C7_expand_limits_witness :
  aspect_bounds (length doc_acting5) (new_aspect 2 3 None None) /\
  exists a', expand_iter doc_acting5 10 (new_aspect 2 3 None None) = Ok a' /\
             2 - context_start a' <= 2 /\ context_stop a' - 3 <= 3.
Proof.
  assert (H : aspect_bounds (length doc_acting5) (new_aspect 2 3 None None))
    by (unfold aspect_bounds; cbn; lia).
  split; [exact H|].
  destruct (proj2 (C7_expand_limits doc_acting5 (new_aspect 2 3 None None) 10 H))
    as [a' [H1 [H2 [H3 [H4 H5]]]]].
  exists a'. split; [exact H1|]. cbn in H3, H5. lia.
Defined.

(** *** The movie-synonym exit *)

Lemma scan_back_movie d fs stop pre i post :
  stop <= length d -> fs < stop -> i < stop ->
  (forall k, In k pre -> k < stop /\
     in_tuple (lower_ (tok d k)) MOVIE_SYNONYMS = false /\
     (in_tuple (lower_ (tok d k)) CHUNK_STOP_WORDS
      || (negb (in_pos_whitelist (pos_ (tok d k)))
          && negb (in_tuple (lower_ (tok d k)) CHUNK_EXCEPTIONS))) = false) ->
  in_tuple (lower_ (tok d i)) MOVIE_SYNONYMS = true ->
  lower_ (tok d fs) = "this" ->
  scan_back d fs stop (pre ++ i :: post) = Ok (Some fs).
Proof.
  intros Hs Hfs Hi Hpre Hm Ht. induction pre as [|k pre IH]; cbn [app scan_back].
  - rewrite get_ok by lia. cbn [bind]. rewrite Hm.
    rewrite get_ok by lia. cbn [bind]. rewrite Ht. reflexivity.
  - destruct (Hpre k (or_introl eq_refl)) as [Hk [Hkm Hkc]].
    rewrite get_ok by lia. cbn [bind]. rewrite Hkm. cbn [bind]. rewrite Hkc.
    apply IH. intros k' Hk'. apply Hpre. right. exact Hk'.
Qed.

Lemma range_down_split a i b :
  a <= i < b -> range_down a b = range_down (S i) b ++ i :: range_down a i.
Proof.
  intro H. unfold range_down, range.
  replace (b - a) with ((S i - a) + (b - S i)) by lia.
  rewrite seq_app, rev_app_distr. f_equal.
  - f_equal. f_equal. lia.
  - replace (S i - a) with (S (i - a)) by lia. rewrite seq_S, rev_app_distr.
    cbn. f_equal. lia.
Qed.

(** C8: when the backward scan of the chunk reducer reaches a movie
    synonym [i] (no token after [i] stopped it) and the token at
    [full_start] is ['this'], the reduced span is the whole
    [[full_start, stop)], equal to the context span. *)
Theorem C8_movie_phrase_kept d s e fs i :
  e <= length d ->
  find_full_start d (range s e) s = Ok fs ->
  fs <= i < e ->
  in_tuple (lower_ (tok d i)) MOVIE_SYNONYMS = true ->
  lower_ (tok d fs) = "this" ->
  (forall k, i < k < e ->
     in_tuple (lower_ (tok d k)) MOVIE_SYNONYMS = false /\
     (in_tuple (lower_ (tok d k)) CHUNK_STOP_WORDS
      || (negb (in_pos_whitelist (pos_ (tok d k)))
          && negb (in_tuple (lower_ (tok d k)) CHUNK_EXCEPTIONS))) = false) ->
  reduce_noun_chunk d s e = Ok (Some (new_aspect fs e (Some fs) (Some e))).
Proof.
  intros He Hfs Hi Hm Ht Hk. unfold reduce_noun_chunk. rewrite Hfs. cbn [bind].
  rewrite (range_down_split fs i e Hi).
  rewrite (scan_back_movie d fs e); [reflexivity | lia | lia | lia | | exact Hm | exact Ht].
  intros k Hk'. apply in_range_down in Hk'. split; [lia | apply Hk; lia].
Qed.

Lemma C8_movie_phrase_kept_witness :
  span_text doc_this_long_movie 2 5 = "this long movie" /\
  reduce_noun_chunk doc_this_long_movie 2 5 = Ok (Some (new_aspect 2 5 (Some 2) (Some 5))).
Proof.
  split; [reflexivity|].
  apply (C8_movie_phrase_kept doc_this_long_movie 2 5 2 4).
  - cbn. lia.
  - reflexivity.
  - lia.
  - reflexivity.
  - reflexivity.
  - intros k Hk. lia.
Defined.

(** *** The POS whitelist *)

Lemma prefix_app x s : String.prefix x s = true <-> exists suf, s = (x ++ suf)%string.
Proof.
  revert s. induction x as [|a x IH]; intro s.
  - split; [intros _; exists s; reflexivity | intros _; destruct s; reflexivity].
  - destruct s as [|b s]; cbn [String.prefix].
    + split; [discriminate | intros [suf H]; discriminate].
    + destruct (Ascii.ascii_dec a b) as [<- | Hab].
      * rewrite IH. split; intros [suf H]; exists suf; [rewrite H | inv H]; reflexivity.
      * split; [discriminate | intros [suf H]; inv H; contradiction].
Qed.

Lemma str_contains_spec s x :
  str_contains s x = true <-> exists pre suf, s = (pre ++ x ++ suf)%string.
Proof.
  induction s as [|c s IH]; cbn [str_contains]; rewrite orb_true_iff, prefix_app.
  - split.
    + intros [[suf H] | H]; [exists EmptyString, suf; exact H | discriminate].
    + intros [pre [suf H]]. left. exists suf. destruct pre; [exact H | discriminate].
  - rewrite IH. split.
    + intros [[suf H] | [pre [suf H]]].
      * exists EmptyString, suf. exact H.
      * exists (String c pre), suf. rewrite H. reflexivity.
    + intros [pre [suf H]]. destruct pre as [|c' pre].
      * left. exists suf. exact H.
      * right. inv H. exists pre, suf. reflexivity.
Qed.

Lemma not_in_xpunct p :
  in_pos_whitelist p = true -> in_tuple p ["X"; "PUNCT"] = false.
Proof.
  intro Hp. unfold in_tuple. cbn [existsb].
  destruct (String.eqb_spec p "X") as [E|_]; [rewrite E in Hp; discriminate|].
  destruct (String.eqb_spec p "PUNCT") as [E|_]; [rewrite E in Hp; discriminate|].
  reflexivity.
Qed.

(** C9: the POS test [pos_ in POS_WHITELIST] is a substring test on the
    string ['NOUN']: it accepts exactly the contiguous substrings of
    ['NOUN'].  A single token whose tag is such a substring passes both the
    scanner's noun test and the reducer's test: it becomes one aspect
    [[0, 1)] with context [[0, 1)] (no stop word, not ['s], non-empty
    text). *)
Theorem C9_pos_whitelist_substring :
  (forall p, in_pos_whitelist p = true <->
             exists pre suf, POS_WHITELIST = (pre ++ p ++ suf)%string) /\
  (forall t, in_pos_whitelist (pos_ t) = true -> left_edge t = 0 ->
     in_tuple (lower_ t) CHUNK_STOP_WORDS = false -> lower_ t <> "'s" ->
     text t <> "" ->
     extract_doc [t] = Ok ([new_aspect 0 1 (Some 0) (Some 1)], [])).
Proof.
  split; [intro p; apply str_contains_spec|].
  intros t Hp Hle Hs Hl Ht.
  assert (Hr : reduce_noun_chunk [t] 0 1 = Ok (Some (new_aspect 0 1 (Some 0) (Some 1)))).
  { unfold reduce_noun_chunk, range. cbn [Nat.sub seq find_full_start get nth_error bind].
    rewrite (not_in_xpunct _ Hp).
    replace (String.eqb (lower_ t) "'s") with false
      by (symmetry; apply String.eqb_neq; exact Hl).
    cbn [negb andb bind range_down range Nat.sub seq rev app scan_back get nth_error].
    replace (if in_tuple (lower_ t) MOVIE_SYNONYMS
             then Ok (String.eqb (lower_ t) "this") else Ok false)
      with (Ok false : res bool).
    2:{ destruct (String.eqb_spec (lower_ t) "this") as [E|E].
        - rewrite E. reflexivity.
        - destruct (in_tuple (lower_ t) MOVIE_SYNONYMS); reflexivity. }
    cbn [bind]. rewrite Hs, Hp. reflexivity. }
  unfold extract_doc, collect_aspects, range_down, range.
  cbn [length Nat.sub seq rev app collect_loop Nat.leb get nth_error bind].
  rewrite Hp, Hle. cbn [Nat.add]. rewrite Hr. cbn [bind].
  replace (aspect_eqb_str [t] (new_aspect 0 1 (Some 0) (Some 1)) "") with false.
  2:{ symmetry. unfold aspect_eqb_str, aspect_text, span_text. cbn.
      apply String.eqb_neq. intro E. apply Ht. rewrite <- E.
      destruct (text t); reflexivity. }
  reflexivity.
Qed.

Lemma C9_pos_whitelist_substring_witness :
  pos_ (tk "plot" "UN" 0) <> "NOUN" /\
  extract_doc [tk "plot" "UN" 0] = Ok ([new_aspect 0 1 (Some 0) (Some 1)], []).
Proof.
  split; [discriminate|].
  apply (proj2 C9_pos_whitelist_substring); try reflexivity; discriminate.
Defined.

(** *** Ordinals after disambiguation *)

Lemma occurrences_before_S d l i k :
  occurrences_before d l (S i) k =
  occurrences_before d l i k +
  (if String.eqb (aspect_text d (nth i l default_aspect))
                 (aspect_text d (nth k l default_aspect)) then 1 else 0).
Proof.
  unfold occurrences_before. rewrite seq_S, filter_app, length_app. cbn [filter].
  destruct (String.eqb _ _); reflexivity.
Qed.

Lemma occurrences_before_same d l i k k' :
  aspect_text d (nth k l default_aspect) = aspect_text d (nth k' l default_aspect) ->
  occurrences_before d l i k = occurrences_before d l i k'.
Proof. intro H. unfold occurrences_before. rewrite H. reflexivity. Qed.

Lemma aspect_text_spans d l l' k :
  spans l = spans l' ->
  aspect_text d (nth k l default_aspect) = aspect_text d (nth k l' default_aspect).
Proof.
  intro H. destruct (spans_nth l l' k H) as [H1 H2]. unfold aspect_text. rewrite H1, H2.
  reflexivity.
Qed.

Lemma pair_ordinals d l0 i j l log :
  i < j -> j < length l -> Forall (aspect_bounds (length d)) l -> spans l = spans l0 ->
  (forall k, k < length l -> ordinal (nth k l default_aspect) =
     occurrences_before d l0 (Nat.min (if Nat.ltb k j then S i else i) k) k) ->
  exists l' log', disambiguate_pair d i j (l, log) = Ok (l', log') /\
    Forall (aspect_bounds (length d)) l' /\ spans l' = spans l0 /\
    (forall k, k < length l' -> ordinal (nth k l' default_aspect) =
       occurrences_before d l0 (Nat.min (if Nat.ltb k (S j) then S i else i) k) k).
Proof.
  intros Hij Hj Hb Hs Hinv.
  destruct (disambiguate_pair_spec d i j l log Hij Hj Hb)
    as (l' & log' & Hrun & Hb' & Hs' & Hk & Hjo & _ & _).
  exists l', log'. split; [exact Hrun|]. split; [exact Hb'|].
  split; [rewrite Hs'; exact Hs|].
  assert (Hlen : length l' = length l) by (apply spans_length; exact Hs').
  intros k Hk'. rewrite Hlen in Hk'.
  destruct (Nat.eq_dec k j) as [->|Hne].
  - rewrite Hjo, (aspect_text_spans d l l0 i Hs), (aspect_text_spans d l l0 j Hs).
    replace (Nat.ltb j (S j)) with true by (symmetry; apply Nat.ltb_lt; lia).
    replace (Nat.min (S i) j) with (S i) by lia.
    rewrite occurrences_before_S.
    destruct (String.eqb_spec (aspect_text d (nth i l0 default_aspect))
                              (aspect_text d (nth j l0 default_aspect))) as [E|E].
    + rewrite (Hinv i) by lia.
      replace (Nat.ltb i j) with true by (symmetry; apply Nat.ltb_lt; lia).
      replace (Nat.min (S i) i) with i by lia.
      rewrite (occurrences_before_same d l0 i i j E). reflexivity.
    + rewrite (Hinv j Hj).
      replace (Nat.ltb j j) with false by (symmetry; apply Nat.ltb_ge; lia).
      replace (Nat.min i j) with i by lia. lia.
  - rewrite (Hk k Hne), (Hinv k Hk').
    replace (Nat.ltb k (S j)) with (Nat.ltb k j); [reflexivity|].
    destruct (Nat.ltb_spec k j), (Nat.ltb_spec k (S j)); try reflexivity; lia.
Qed.

Lemma inner_ordinals d l0 i m : forall j l log,
  i < j -> j + m = length l -> Forall (aspect_bounds (length d)) l -> spans l = spans l0 ->
  (forall k, k < length l -> ordinal (nth k l default_aspect) =
     occurrences_before d l0 (Nat.min (if Nat.ltb k j then S i else i) k) k) ->
  exists l' log', disambiguate_inner d i (seq j m) (l, log) = Ok (l', log') /\
    Forall (aspect_bounds (length d)) l' /\ spans l' = spans l0 /\
    (forall k, k < length l' -> ordinal (nth k l' default_aspect) =
       occurrences_before d l0 (Nat.min (S i) k) k).
Proof.
  induction m as [|m IH]; intros j l log Hij Hm Hb Hs Hinv.
  - exists l, log. split; [reflexivity|]. split; [exact Hb|]. split; [exact Hs|].
    intros k Hk. rewrite (Hinv k Hk).
    replace (Nat.ltb k j) with true by (symmetry; apply Nat.ltb_lt; lia). reflexivity.
  - destruct (pair_ordinals d l0 i j l log) as (l1 & log1 & Hrun & Hb1 & Hs1 & Hinv1);
      try assumption; try lia.
    assert (Hlen : length l1 = length l).
    { apply spans_length. rewrite Hs1, Hs. reflexivity. }
    destruct (IH (S j) l1 log1) as (l' & log' & Hrun' & Hb' & Hs' & Hinv');
      try assumption; try lia.
    exists l', log'. split; [|split; [exact Hb'|split; [exact Hs'|exact Hinv']]].
    cbn [seq disambiguate_inner]. rewrite Hrun. cbn [bind]. exact Hrun'.
Qed.

Lemma outer_ordinals d l0 n m : forall i l log,
  n = length l -> i + m <= n -> Forall (aspect_bounds (length d)) l -> spans l = spans l0 ->
  (forall k, k < length l -> ordinal (nth k l default_aspect) =
     occurrences_before d l0 (Nat.min i k) k) ->
  exists l' log', disambiguate_outer d n (seq i m) (l, log) = Ok (l', log') /\
    Forall (aspect_bounds (length d)) l' /\ spans l' = spans l0 /\
    (forall k, k < length l' -> ordinal (nth k l' default_aspect) =
       occurrences_before d l0 (Nat.min (i + m) k) k).
Proof.
  induction m as [|m IH]; intros i l log Hn Him Hb Hs Hinv.
  - exists l, log. rewrite Nat.add_0_r. repeat split; assumption.
  - destruct (inner_ordinals d l0 i (n - (i + 1)) (i + 1) l log)
      as (l1 & log1 & Hrun & Hb1 & Hs1 & Hinv1); try assumption; try lia.
    { intros k Hk. rewrite (Hinv k Hk).
      destruct (Nat.ltb_spec k (i + 1)); f_equal; lia. }
    assert (Hlen : length l1 = length l).
    { apply spans_length. rewrite Hs1, Hs. reflexivity. }
    destruct (IH (S i) l1 log1) as (l' & log' & Hrun' & Hb' & Hs' & Hinv');
      try assumption; try lia.
    exists l', log'. split.
    + cbn [seq disambiguate_outer]. unfold range. rewrite Hrun. cbn [bind]. exact Hrun'.
    + split; [exact Hb'|]. split; [exact Hs'|].
      intros k Hk. rewrite (Hinv' k Hk). f_equal. f_equal. lia.
Qed.

(** Starting from ordinals 0, the disambiguator leaves every aspect with its
    occurrence index among the aspects of the same reduced text. *)
Lemma disambiguate_ordinals d l :
  Forall (fun a => ordinal a = 0) l -> Forall (aspect_bounds (length d)) l ->
  exists l' log, disambiguate d l = Ok (l', log) /\
    Forall (aspect_bounds (length d)) l' /\ spans l' = spans l /\
    (forall k, k < length l ->
       ordinal (nth k l' default_aspect) = occurrences_before d l k k).
Proof.
  intros H0 Hb.
  destruct (outer_ordinals d l (length l) (length l - 1) 0 l [])
    as (l' & log & Hrun & Hb' & Hs' & Hinv); try assumption; try reflexivity; try lia.
  { intros k Hk. rewrite Forall_forall in H0. rewrite H0 by (apply nth_In; exact Hk).
    reflexivity. }
  exists l', log. split.
  { unfold disambiguate, range. rewrite Nat.sub_0_r. exact Hrun. }
  split; [exact Hb'|]. split; [exact Hs'|].
  intros k Hk. rewrite Hinv by (rewrite (spans_length _ _ Hs'); exact Hk).
  f_equal. lia.
Qed.

Lemma occurrences_before_spans d l l' i k :
  spans l = spans l' -> occurrences_before d l i k = occurrences_before d l' i k.
Proof.
  intro H. unfold occurrences_before. rewrite (aspect_text_spans d l l' k H).
  f_equal. apply filter_ext. intro m. rewrite (aspect_text_spans d l l' m H). reflexivity.
Qed.

Lemma occurrences_before_unique d l k :
  k < length l ->
  (forall m, m < length l -> m <> k ->
     aspect_text d (nth m l default_aspect) <> aspect_text d (nth k l default_aspect)) ->
  occurrences_before d l k k = 0.
Proof.
  intros Hk Hu. unfold occurrences_before.
  destruct (filter _ (seq 0 k)) as [|m r] eqn:E; [reflexivity|].
  assert (Hm : In m (m :: r)) by (left; reflexivity). rewrite <- E in Hm.
  apply filter_In in Hm as [Hin Heq]. apply in_seq in Hin. apply String.eqb_eq in Heq.
  exfalso. apply (Hu m); [lia | lia | exact Heq].
Qed.

Lemma join_pass_ordinal d l r :
  Forall (fun a => ordinal a = 0) l -> join_pass d l = Ok r ->
  Forall (fun a => ordinal a = 0) r.
Proof.
  unfold join_pass. revert r. induction l as [|a l IH]; intros r H0 Hr.
  - inv Hr. constructor.
  - inv H0. cbn [join_onto] in Hr.
    destruct (join_onto d l []) as [r0|e] eqn:E; [|discriminate]. cbn [bind] in Hr.
    specialize (IH r0 H3 eq_refl).
    destruct r0 as [|b r0]; cbn [join_step] in Hr.
    + inv Hr. constructor; [assumption | constructor].
    + destruct (join_cond d a b) as [c|e]; [|discriminate]. cbn [bind] in Hr.
      inv IH. destruct c; inv Hr.
      * constructor; [reflexivity | assumption].
      * constructor; [assumption | constructor; assumption].
Qed.

(** C10: when the disambiguator runs on a list whose ordinals are all 0 (as
    every list the pipeline hands it: the scanner and the merger build
    aspects with ordinal 0, within the sentence's bounds), each aspect ends
    with ordinal equal to the number of aspects before it in the list with
    the same reduced text (the k-th occurrence, 0-based, gets ordinal k), and
    an aspect whose reduced text is unique in the list keeps ordinal 0. *)
Theorem C10_occurrence_ordinals :
  (forall d l,
     Forall (fun a => ordinal a = 0) l -> Forall (aspect_bounds (length d)) l ->
     exists l' log, disambiguate d l = Ok (l', log) /\ spans l' = spans l /\
       (forall k, k < length l' ->
          ordinal (nth k l' default_aspect) = occurrences_before d l' k k) /\
       (forall k, k < length l' ->
          (forall m, m < length l' -> m <> k ->
             aspect_text d (nth m l' default_aspect) <>
             aspect_text d (nth k l' default_aspect)) ->
          ordinal (nth k l' default_aspect) = 0)) /\
  (forall d s r, doc_wf d -> collect_aspects d = Ok s -> join_chunks d s = Ok r ->
     Forall (fun a => ordinal a = 0) r /\ Forall (aspect_bounds (length d)) r).
Proof.
  split.
  - intros d l H0 Hb.
    destruct (disambiguate_ordinals d l H0 Hb) as (l' & log & Hrun & _ & Hs & Hord).
    assert (Hlen : length l' = length l) by (apply spans_length; exact Hs).
    exists l', log. split; [exact Hrun|]. split; [exact Hs|].
    assert (Hk : forall k, k < length l' ->
              ordinal (nth k l' default_aspect) = occurrences_before d l' k k).
    { intros k Hk. rewrite Hord by lia. apply occurrences_before_spans. symmetry. exact Hs. }
    split; [exact Hk|].
    intros k Hk' Hu. rewrite (Hk k Hk'). apply occurrences_before_unique; assumption.
  - intros d s r Hd Hs Hr.
    destruct (collect_aspects_ok d Hd) as [s' [Hs' [Hwf [Hord H0]]]].
    rewrite Hs in Hs'. inv Hs'. rewrite join_chunks_pass in Hr.
    destruct (join_pass_ok d s' Hwf Hord) as [r' [Hr' [Hrwf _]]].
    rewrite Hr in Hr'. inv Hr'. split.
    + apply (join_pass_ordinal d s'); assumption.
    + eapply Forall_impl; [|exact Hrwf]. intros a [Ha _]. exact Ha.
Qed.

Lemma C10_occurrence_ordinals_witness :
  occurrences_before doc_acting5 acting5_chunks 3 3 = 3 /\
  exists l' log, disambiguate doc_acting5 acting5_chunks = Ok (l', log) /\
    ordinal (nth 3 l' default_aspect) = occurrences_before doc_acting5 l' 3 3.
Proof.
  split; [reflexivity|].
  destruct (proj2 C10_occurrence_ordinals doc_acting5
              acting5_chunks acting5_chunks) as [H0 Hb].
  - apply doc_wfb_spec. vm_compute. reflexivity.
  - vm_compute. reflexivity.
  - vm_compute. reflexivity.
  - destruct (proj1 C10_occurrence_ordinals doc_acting5 acting5_chunks H0 Hb)
      as (l' & log & Hrun & Hs & Hord & _).
    exists l', log. split; [exact Hrun|]. apply Hord.
    rewrite (spans_length _ _ Hs). vm_compute. lia.
Defined.

(** C3 (counterexample): on "acting acting acting acting acting", each
    token its own chunk, the final list keeps aspects 0 and 3 (and 1 and 2)
    with equal reduced texts and equal context texts although no warning was
    logged; and the first and third occurrences have ordinals 0 and 2. *)
Lemma C3_counterexample :
  exists l, extract_doc doc_acting5 = Ok (l, []) /\
    aspect_text doc_acting5 (nth 0 l default_aspect) =
      aspect_text doc_acting5 (nth 3 l default_aspect) /\
    aspect_context doc_acting5 (nth 0 l default_aspect) =
      aspect_context doc_acting5 (nth 3 l default_aspect) /\
    aspect_context doc_acting5 (nth 1 l default_aspect) =
      aspect_context doc_acting5 (nth 2 l default_aspect) /\
    ordinal (nth 0 l default_aspect) = 0 /\ ordinal (nth 2 l default_aspect) = 2.
Proof.
  eexists. split; [vm_compute; reflexivity|]. vm_compute.
  exact (conj eq_refl (conj eq_refl (conj eq_refl (conj eq_refl eq_refl)))).
Qed.

(** C3 (amended): when the disambiguator examines a pair [(i, j)], [i < j],
    with equal reduced texts, it sets the ordinal of [j] to the ordinal of
    [i] plus one, and when that pair's expansion loop ends the two context
    texts differ or one warning was logged; no aspect is removed (the list
    keeps its reduced spans).  Over the whole run, from ordinals 0, the
    k-th occurrence (0-based) of a reduced text ends with ordinal k.  A later
    pair may expand an aspect again, so equal contexts without a warning can
    remain at the end. *)
Theorem C3_amended :
  (forall d i j l log,
     i < j -> j < length l -> Forall (aspect_bounds (length d)) l ->
     exists l' log', disambiguate_pair d i j (l, log) = Ok (l', log') /\
       spans l' = spans l /\
       (aspect_text d (nth i l default_aspect) = aspect_text d (nth j l default_aspect) ->
          ordinal (nth j l' default_aspect) = ordinal (nth i l default_aspect) + 1 /\
          (aspect_eqb d (nth i l' default_aspect) (nth j l' default_aspect) = false \/
           exists w, log' = log ++ [w]))) /\
  (forall d l,
     Forall (fun a => ordinal a = 0) l -> Forall (aspect_bounds (length d)) l ->
     exists l' log, disambiguate d l = Ok (l', log) /\ spans l' = spans l /\
       (forall k, k < length l ->
          ordinal (nth k l' default_aspect) = occurrences_before d l k k)).
Proof.
  split.
  - intros d i j l log Hij Hj Hb.
    destruct (disambiguate_pair_spec d i j l log Hij Hj Hb)
      as (l' & log' & Hrun & _ & Hs & _ & Hjo & Hw & _).
    exists l', log'. split; [exact Hrun|]. split; [exact Hs|].
    intro E. split; [|exact (Hw E)].
    rewrite Hjo. apply String.eqb_eq in E. rewrite E. reflexivity.
  - intros d l H0 Hb.
    destruct (disambiguate_ordinals d l H0 Hb) as (l' & log & Hrun & _ & Hs & Hord).
    exists l', log. split; [exact Hrun|]. split; [exact Hs | exact Hord].
Qed.

Lemma C3_amended_witness :
  exists l' log', disambiguate_pair doc_acting5 0 1 (acting5_chunks, []) = Ok (l', log') /\
    ordinal (nth 1 l' default_aspect) = 1 /\
    (aspect_eqb doc_acting5 (nth 0 l' default_aspect) (nth 1 l' default_aspect) = false \/
     exists w, log' = [w]).
Proof.
  destruct (proj1 C3_amended doc_acting5 0 1 acting5_chunks [])
    as (l' & log' & Hrun & _ & Himp);
    [lia | vm_compute; lia | vm_compute; repeat constructor |].
  destruct (Himp eq_refl) as [Ho Hw].
  exists l', log'. split; [exact Hrun|]. split; [exact Ho | exact Hw].
Defined.

(** ** Further properties of the code *)

(** *** The reducer *)


Lemma scan_back_trim d fs e n : forall rs,
  fs + n <= e -> e <= length d ->
  (forall k, fs + n <= k < e -> chunk_cut (tok d k) = false) ->
  scan_back d fs e (range_down fs (fs + n)) = Ok (Some rs) ->
  fs <= rs /\
  ((forall k, rs <= k < e -> chunk_cut (tok d k) = false) \/
   (rs = fs /\ lower_ (tok d fs) = "this" /\
    exists m, fs <= m < e /\ in_tuple (lower_ (tok d m)) MOVIE_SYNONYMS = true)).
Proof.
  induction n as [|n IH]; intros rs Hn He Hpass Hr.
  - unfold range_down, range in Hr. rewrite Nat.add_0_r, Nat.sub_diag in Hr.
    cbn in Hr. injection Hr as <-. split; [lia|]. left. intros k Hk. apply Hpass. lia.
  - rewrite range_down_top in Hr by lia.
    replace (fs + S n - 1) with (fs + n) in Hr by lia.
    cbn [scan_back] in Hr. rewrite get_ok in Hr by lia. cbn [bind] in Hr.
    destruct (in_tuple (lower_ (tok d (fs + n))) MOVIE_SYNONYMS) eqn:Em.
    + rewrite get_ok in Hr by lia. cbn [bind] in Hr.
      destruct (String.eqb_spec (lower_ (tok d fs)) "this") as [Ht|Ht].
      * injection Hr as <-. split; [lia|]. right. split; [reflexivity|].
        split; [exact Ht|]. exists (fs + n). split; [lia | exact Em].
      * fold (chunk_cut (tok d (fs + n))) in Hr.
        destruct (chunk_cut (tok d (fs + n))) eqn:Ec.
        -- destruct (Nat.eqb_spec (fs + n) (e - 1)); [discriminate|].
           rewrite get_ok in Hr by lia. cbn [bind] in Hr.
           assert (Hrs : fs + n + 1 <= rs /\ rs <= e).
           { destruct (in_tuple (text (tok d (fs + n + 1))) ["'s"; "-"; "/"; ","; "and"]);
               injection Hr as <-; lia. }
           split; [lia|]. left. intros k Hk. apply Hpass. lia.
        -- apply IH; [lia | lia | | exact Hr].
           intros k Hk. destruct (Nat.eq_dec k (fs + n)) as [->|]; [exact Ec|].
           apply Hpass. lia.
    + cbn [bind] in Hr. fold (chunk_cut (tok d (fs + n))) in Hr.
      destruct (chunk_cut (tok d (fs + n))) eqn:Ec.
      -- destruct (Nat.eqb_spec (fs + n) (e - 1)); [discriminate|].
         rewrite get_ok in Hr by lia. cbn [bind] in Hr.
         assert (Hrs : fs + n + 1 <= rs /\ rs <= e).
         { destruct (in_tuple (text (tok d (fs + n + 1))) ["'s"; "-"; "/"; ","; "and"]);
             injection Hr as <-; lia. }
         split; [lia|]. left. intros k Hk. apply Hpass. lia.
      -- apply IH; [lia | lia | | exact Hr].
         intros k Hk. destruct (Nat.eq_dec k (fs + n)) as [->|]; [exact Ec|].
         apply Hpass. lia.
Qed.



(** X2: a chunk returned by the reducer is non-empty and ends at [stop]; each
    token of its reduced span passes the reduction test (no chunk stop word,
    and a noun or a chunk exception), unless the ['this' ... movie] exit
    kept the chunk from [full_start]. *)
Theorem X2_reduced_span_passes d s e a :
  s < e -> e <= length d -> reduce_noun_chunk d s e = Ok (Some a) ->
  start a < stop a /\ stop a = e /\
  ((forall k, start a <= k < e -> chunk_cut (tok d k) = false) \/
   (start a = context_start a /\ lower_ (tok d (start a)) = "this" /\
    exists m, start a <= m < e /\ in_tuple (lower_ (tok d m)) MOVIE_SYNONYMS = true)).
Proof.
  intros Hse He Hr.
  destruct (reduce_noun_chunk_ok d s e Hse He) as [r [Hr' Hsp]].
  rewrite Hr in Hr'. injection Hr' as <-.
  destruct (Hsp a eq_refl) as [[_ Hlt] [_ [Hstop _]]].
  split; [exact Hlt|]. split; [exact Hstop|].
  unfold reduce_noun_chunk in Hr.
  destruct (full_start_bounds d s e Hse He) as [fs [Hfs Hb]].
  rewrite Hfs in Hr. cbn [bind] in Hr.
  destruct (scan_back d fs e (range_down fs e)) as [[rs|]|err] eqn:Es;
    cbn [bind] in Hr; try discriminate.
  injection Hr as <-.
  replace (range_down fs e) with (range_down fs (fs + (e - fs))) in Es by (f_equal; lia).
  destruct (scan_back_trim d fs e (e - fs) rs) as [_ [Hall | (-> & Ht & m & Hm)]];
    try assumption; try lia.
  - left. exact Hall.
  - right. cbn. split; [reflexivity|]. split; [exact Ht|]. exists m. exact Hm.
Qed.

Lemma X2_reduced_span_passes_witness :
  reduce_noun_chunk doc_great_plot 0 3 =
    Ok (Some (new_aspect 2 3 (Some 0) (Some 3))) /\
  start (new_aspect 2 3 (Some 0) (Some 3)) < stop (new_aspect 2 3 (Some 0) (Some 3)).
Proof.
  assert (Hr : reduce_noun_chunk doc_great_plot 0 3
               = Ok (Some (new_aspect 2 3 (Some 0) (Some 3)))) by (vm_compute; reflexivity).
  split; [exact Hr|].
  destruct (X2_reduced_span_passes doc_great_plot 0 3 _ ltac:(lia) ltac:(cbn; lia) Hr)
    as [H _].
  exact H.
Defined.

(** *** The scanner and the merger *)

Lemma collect_loop_ctx d idx mp acc :
  doc_wf d -> (forall i, In i idx -> i < length d) -> mp <= length d ->
  ctx_ordered acc -> head_ctx_ge mp acc ->
  Forall (fun a => aspect_head_ok d a = true) acc ->
  exists r, collect_loop d idx mp acc = Ok r /\ ctx_ordered r /\
    Forall (fun a => aspect_head_ok d a = true) r.
Proof.
  intros Hd. revert mp acc.
  induction idx as [|i idx IH]; intros mp acc Hidx Hmp Hord Hhd Hok; cbn [collect_loop].
  - eauto.
  - assert (Hi : i < length d) by (apply Hidx; left; reflexivity).
    assert (Hidx' : forall k, In k idx -> k < length d)
      by (intros k Hk; apply Hidx; right; exact Hk).
    destruct (Nat.leb mp i) eqn:Emp; [apply IH; assumption|].
    apply Nat.leb_gt in Emp.
    rewrite get_ok by exact Hi. cbn [bind].
    destruct (in_pos_whitelist (pos_ (tok d i))) eqn:Epos.
    + assert (Hle : left_edge (tok d i) <= i)
        by (apply (Hd i); apply nth_error_tok; exact Hi).
      destruct (reduce_noun_chunk_ok d (left_edge (tok d i)) (i + 1))
        as [r [Hr Hspec]]; [lia | lia |].
      rewrite Hr. cbn [bind]. destruct r as [c|]; [|apply IH; assumption].
      destruct (Hspec c eq_refl) as [Hcwf [_ [Hcstop [Hcce _]]]].
      destruct (negb _); [|apply IH; assumption].
      apply IH; try assumption.
      * destruct Hcwf as [[? [? [? ?]]] ?]. lia.
      * cbn [ctx_ordered]. split; [|exact Hord]. destruct acc as [|b acc]; [exact I|].
        cbn in Hhd. lia.
      * cbn. lia.
      * constructor; [|assumption]. unfold aspect_head_ok. rewrite Hcstop.
        replace (i + 1 - 1) with i by lia. rewrite Epos. reflexivity.
    + destruct (in_tuple (lower_ (tok d i)) NON_NOUN_ASPECTS) eqn:Enn;
        [|apply IH; assumption].
      apply IH; try assumption.
      * lia.
      * cbn [ctx_ordered]. split; [|exact Hord]. destruct acc as [|b acc]; [exact I|].
        cbn in Hhd. unfold context_stop, new_aspect. cbn. lia.
      * cbn. lia.
      * constructor; [|assumption]. unfold aspect_head_ok. cbn.
        replace (i + 1 - 1) with i by lia. rewrite Enn, orb_true_r. reflexivity.
Qed.

Lemma collect_aspects_ctx d :
  doc_wf d ->
  exists r, collect_aspects d = Ok r /\ ctx_ordered r /\
    Forall (fun a => aspect_head_ok d a = true) r.
Proof.
  intro Hd. unfold collect_aspects. apply collect_loop_ctx; cbn; auto.
  intros i Hi. apply in_range_down in Hi. lia.
Qed.

Lemma join_cond_true d a b : join_cond d a b = Ok true -> stop a = start b.
Proof.
  unfold join_cond. destruct (py_get d _) as [t|e]; cbn [bind]; [|discriminate].
  destruct (negb (whitespace_ t)); intro H; inv H; [apply Nat.eqb_eq; assumption].
Qed.

Lemma join_pass_ctx d l r :
  join_pass d l = Ok r -> ctx_ordered l ->
  Forall (fun a => aspect_head_ok d a = true) l ->
  ctx_ordered r /\ Forall (fun a => aspect_head_ok d a = true) r /\
  option_map context_start (hd_error r) = option_map context_start (hd_error l).
Proof.
  unfold join_pass. revert r. induction l as [|a l IH]; intros r Hr Hord Hok.
  - inv Hr. repeat split; constructor.
  - inv Hok. cbn [join_onto] in Hr.
    destruct (join_onto d l []) as [r0|e] eqn:E; [|discriminate]. cbn [bind] in Hr.
    destruct Hord as [Hal Hord].
    destruct (IH r0 eq_refl Hord H2) as (Hord0 & Hok0 & Hhd0).
    destruct r0 as [|b r0]; cbn [join_step] in Hr.
    + inv Hr. repeat split; repeat constructor; assumption.
    + destruct (join_cond d a b) as [c|e]; [|discriminate]. cbn [bind] in Hr.
      inv Hok0. destruct l as [|a0 l]; [discriminate|]. cbn in Hhd0. inv Hhd0.
      destruct c; inv Hr.
      * split; [|split; [constructor; assumption | reflexivity]].
        destruct Hord0 as [Hbr Hord0]. split; [|exact Hord0].
        destruct r0 as [|c r0]; [exact I|]. exact Hbr.
      * split; [|split; [repeat constructor; assumption | reflexivity]].
        split; [|exact Hord0]. cbn. cbn in Hal. lia.
Qed.

Lemma join_pass_nonempty d l r :
  join_pass d l = Ok r -> (r = [] <-> l = []) /\ length r <= length l.
Proof.
  unfold join_pass. revert r. induction l as [|a l IH]; intros r Hr.
  - inv Hr. split; [tauto | reflexivity].
  - cbn [join_onto] in Hr.
    destruct (join_onto d l []) as [r0|e] eqn:E; [|discriminate]. cbn [bind] in Hr.
    destruct (IH r0 eq_refl) as [_ Hlen].
    destruct r0 as [|b r0]; cbn [join_step] in Hr.
    + inv Hr. split; [split; discriminate | cbn; lia].
    + destruct (join_cond d a b) as [c|e]; [|discriminate]. cbn [bind] in Hr.
      destruct c; inv Hr; (split; [split; discriminate | cbn in *; lia]).
Qed.

Lemma range_app a b c : a <= b <= c -> range a c = range a b ++ range b c.
Proof.
  intro H. unfold range. replace (c - a) with ((b - a) + (c - b)) by lia.
  rewrite seq_app. f_equal. f_equal. lia.
Qed.

Lemma join_pass_covered d l r :
  join_pass d l = Ok r -> Forall (fun a => start a <= stop a) l ->
  covered r = covered l /\ Forall (fun a => start a <= stop a) r /\
  option_map start (hd_error r) = option_map start (hd_error l).
Proof.
  unfold join_pass. revert r. induction l as [|a l IH]; intros r Hr Hl.
  - inv Hr. repeat split; constructor.
  - inv Hl. cbn [join_onto] in Hr.
    destruct (join_onto d l []) as [r0|e] eqn:E; [|discriminate]. cbn [bind] in Hr.
    destruct (IH r0 eq_refl H2) as (Hc0 & Hw0 & Hhd0).
    destruct r0 as [|b r0]; cbn [join_step] in Hr.
    + inv Hr. split; [|split; [repeat constructor; assumption | reflexivity]].
      unfold covered in *. cbn [flat_map] in *. rewrite <- Hc0. reflexivity.
    + destruct (join_cond d a b) as [c|e] eqn:Ec; [|discriminate]. cbn [bind] in Hr.
      inv Hw0. destruct l as [|a0 l]; [discriminate|]. cbn in Hhd0. inv Hhd0.
      destruct c; inv Hr.
      * apply join_cond_true in Ec.
        split; [|split; [constructor; [cbn; lia | assumption] | reflexivity]].
        unfold covered in *. cbn [flat_map] in *. rewrite <- Hc0.
        cbn [joined new_aspect start stop]. rewrite (range_app (start a) (stop a) (stop b)) by lia.
        rewrite Ec, app_assoc. reflexivity.
      * split; [|split; [repeat constructor; assumption | reflexivity]].
        unfold covered in *. cbn [flat_map] in *. rewrite <- Hc0. reflexivity.
Qed.


(** X3: the context spans of the scanner's aspects, and of the merger's
    output, are in left-to-right order and pairwise disjoint: each context
    stops before the next one starts (no token lies in two chunk contexts
    before disambiguation). *)
Theorem X3_contexts_disjoint d s r :
  doc_wf d -> collect_aspects d = Ok s -> join_chunks d s = Ok r ->
  ctx_ordered s /\ ctx_ordered r.
Proof.
  intros Hd Hs Hr.
  destruct (collect_aspects_ctx d Hd) as [s' [Hs' [Hord Hok]]].
  rewrite Hs in Hs'. injection Hs' as <-. split; [exact Hord|].
  rewrite join_chunks_pass in Hr.
  destruct (join_pass_ctx d s r Hr Hord Hok) as [H _]. exact H.
Qed.

Lemma X3_contexts_disjoint_witness : ctx_ordered acting5_chunks.
Proof.
  destruct (X3_contexts_disjoint doc_acting5 acting5_chunks acting5_chunks) as [H _].
  - apply doc_wfb_spec. vm_compute. reflexivity.
  - vm_compute. reflexivity.
  - vm_compute. reflexivity.
  - exact H.
Defined.



(** X5: the merger neither adds nor drops a token of the reduced spans: the
    token indices covered by its output, in order, are those of its input; it
    never makes the list longer, and its output is empty only for an empty
    input. *)
Theorem X5_merge_keeps_tokens d l r :
  Forall (fun a => start a <= stop a) l -> join_chunks d l = Ok r ->
  covered r = covered l /\ (r = [] <-> l = []) /\ length r <= length l.
Proof.
  intros Hl Hr. rewrite join_chunks_pass in Hr.
  destruct (join_pass_covered d l r Hr Hl) as [Hc _].
  destruct (join_pass_nonempty d l r Hr) as [He Hlen].
  split; [exact Hc|]. split; [exact He | exact Hlen].
Qed.

Lemma X5_merge_keeps_tokens_witness :
  join_chunks doc_subplot subplot_chunks = Ok [new_aspect 0 3 (Some 0) (Some 3)] /\
  covered [new_aspect 0 3 (Some 0) (Some 3)] = covered subplot_chunks.
Proof.
  assert (H : join_chunks doc_subplot subplot_chunks = Ok [new_aspect 0 3 (Some 0) (Some 3)])
    by (vm_compute; reflexivity).
  split; [exact H|].
  destruct (X5_merge_keeps_tokens doc_subplot subplot_chunks
              [new_aspect 0 3 (Some 0) (Some 3)]) as [Hc _];
    [vm_compute; repeat constructor | exact H | exact Hc].
Defined.

(** *** The disambiguator *)

Lemma grown_refl a : grown a a.
Proof. unfold grown. lia. Qed.

Lemma grown_trans a b c : grown a b -> grown b c -> grown a c.
Proof. unfold grown. lia. Qed.

Lemma grown_set_ordinal a o : grown a (set_ordinal a o).
Proof. unfold grown, set_ordinal, context_start, context_stop. cbn. lia. Qed.

Lemma expand_grown d a b a' :
  aspect_bounds (length d) a -> expand d a = Ok (b, a') ->
  grown a a' /\ (within_caps a -> within_caps a').
Proof.
  intros Hb He. pose proof Hb as [H1 [H2 [H3 H4]]].
  destruct (expand_cases d a) as [[Hl E] | [[Hl [Hr E]] | [Hl [Hr E]]]]; [lia | | |];
    rewrite E in He; injection He as <- <-.
  - destruct Hl as [Hl1 [Hl2 _]].
    unfold grown, within_caps, grow_left, context_start, context_stop,
      MAX_EXPANSION_LEFT, MAX_EXPANSION_RIGHT in *; cbn -[Nat.sub Nat.add] in *.
    split; [|intros [? ?]; split]; lia.
  - destruct Hr as [Hr1 [Hr2 _]].
    unfold grown, within_caps, grow_right, context_start, context_stop,
      MAX_EXPANSION_LEFT, MAX_EXPANSION_RIGHT in *; cbn -[Nat.sub Nat.add] in *.
    split; [|intros [? ?]; split]; lia.
  - split; [apply grown_refl | tauto].
Qed.

Lemma expand_while_grown d fuel : forall ai aj ai' aj' w,
  aspect_bounds (length d) ai -> aspect_bounds (length d) aj ->
  expand_while d fuel ai aj = Ok (ai', aj', w) ->
  grown ai ai' /\ (within_caps ai -> within_caps ai') /\
  grown aj aj' /\ (within_caps aj -> within_caps aj').
Proof.
  induction fuel as [|fuel IH]; intros ai aj ai' aj' w Hi Hj Hw; cbn [expand_while] in Hw.
  - injection Hw as <- <- _.
    exact (conj (grown_refl _) (conj (fun H => H) (conj (grown_refl _) (fun H => H)))).
  - destruct (aspect_eqb d ai aj).
    2: { injection Hw as <- <- _.
    exact (conj (grown_refl _) (conj (fun H => H) (conj (grown_refl _) (fun H => H)))). }
    destruct (expand_ok d ai Hi) as [e1 [ai1 [He1 [Hi1 _]]]].
    destruct (expand_ok d aj Hj) as [e2 [aj1 [He2 [Hj1 _]]]].
    destruct (expand_grown d ai e1 ai1 Hi He1) as [Gi Ci].
    destruct (expand_grown d aj e2 aj1 Hj He2) as [Gj Cj].
    rewrite He1 in Hw. cbn [bind] in Hw. rewrite He2 in Hw. cbn [bind] in Hw.
    destruct (negb (e1 || e2)).
    + injection Hw as <- <- _. exact (conj Gi (conj Ci (conj Gj Cj))).
    + destruct (IH ai1 aj1 ai' aj' w Hi1 Hj1 Hw) as (Gi' & Ci' & Gj' & Cj').
      split; [eapply grown_trans; eassumption|]. split; [auto|].
      split; [eapply grown_trans; eassumption | auto].
Qed.

Lemma pair_frame d l0 i j l log :
  i < j -> j < length l -> Forall (aspect_bounds (length d)) l -> spans l = spans l0 ->
  exists l' log', disambiguate_pair d i j (l, log) = Ok (l', log') /\
    Forall (aspect_bounds (length d)) l' /\ spans l' = spans l0 /\
    (forall k, k < length l ->
       grown (nth k l default_aspect) (nth k l' default_aspect) /\
       (within_caps (nth k l default_aspect) -> within_caps (nth k l' default_aspect))) /\
    (forall k, unique_text d l0 k -> nth k l' default_aspect = nth k l default_aspect) /\
    (exists ws, log' = log ++ ws /\ Forall (warning_ok d l0) ws).
Proof.
  intros Hij Hj Hl Hs0.
  assert (Hi : i < length l) by lia.
  assert (Hlen0 : length l = length l0) by (apply spans_length; exact Hs0).
  destruct (disambiguate_pair_spec d i j l log Hij Hj Hl)
    as (l' & log' & Hrun & Hb' & Hs' & _).
  exists l', log'. split; [exact Hrun|]. split; [exact Hb'|].
  split; [rewrite Hs'; exact Hs0|].
  unfold disambiguate_pair in Hrun.
  rewrite (lget_ok l i default_aspect Hi) in Hrun. cbn [bind] in Hrun.
  rewrite (lget_ok l j default_aspect Hj) in Hrun. cbn [bind] in Hrun.
  set (ai := nth i l default_aspect) in *.
  set (aj := nth j l default_aspect) in *.
  assert (Hbi : aspect_bounds (length d) ai) by (apply Forall_nth; assumption).
  assert (Hbj : aspect_bounds (length d) aj) by (apply Forall_nth; assumption).
  destruct (String.eqb (aspect_text d ai) (aspect_text d aj)) eqn:Et.
  - set (aj1 := set_ordinal aj (ordinal ai + 1)) in *.
    destruct (expand_while d (expand_while_fuel ai aj1) ai aj1)
      as [[[ai' aj'] w]|e] eqn:Hw; cbn [bind] in Hrun; [|discriminate].
    destruct (expand_while_grown d _ ai aj1 ai' aj' w Hbi Hbj Hw) as (Gi & Ci & Gj & Cj).
    rewrite (lset_ok l i ai' Hi) in Hrun. cbn [bind] in Hrun.
    rewrite (lset_ok (list_set l i ai') j aj') in Hrun by (rewrite length_list_set; exact Hj).
    cbn [bind] in Hrun. injection Hrun as <- <-.
    assert (Hn : forall k, nth k (list_set (list_set l i ai') j aj') default_aspect =
              if Nat.eqb k j then aj' else if Nat.eqb k i then ai'
              else nth k l default_aspect).
    { intro k. rewrite nth_list_set by (rewrite length_list_set; exact Hj).
      rewrite nth_list_set by exact Hi. reflexivity. }
    apply String.eqb_eq in Et.
    assert (Et0 : aspect_text d (nth i l0 default_aspect) =
                  aspect_text d (nth j l0 default_aspect)).
    { rewrite <- (aspect_text_spans d l l0 i Hs0), <- (aspect_text_spans d l l0 j Hs0).
      exact Et. }
    split; [|split].
    + intros k Hk. rewrite Hn.
      destruct (Nat.eqb_spec k j) as [->|]; [|destruct (Nat.eqb_spec k i) as [->|]].
      * split; [exact (grown_trans _ _ _ (grown_set_ordinal aj _) Gj) | exact Cj].
      * split; [exact Gi | exact Ci].
      * split; [apply grown_refl | tauto].
    + intros k Hu. rewrite Hn.
      destruct (Nat.eqb_spec k j) as [->|]; [|destruct (Nat.eqb_spec k i) as [->|]].
      * exfalso. apply (Hu i); [lia | lia | exact Et0].
      * exfalso. apply (Hu j); [lia | lia | symmetry; exact Et0].
      * reflexivity.
    + destruct w.
      * exists [(i, aspect_text d ai')]. split; [reflexivity|]. constructor; [|constructor].
        destruct Gi as [Hst [Hsp _]].
        assert (Ht' : aspect_text d ai' = aspect_text d (nth i l0 default_aspect)).
        { rewrite <- (aspect_text_spans d l l0 i Hs0). unfold aspect_text.
          rewrite Hst, Hsp. reflexivity. }
        unfold warning_ok. cbn [fst snd]. split; [exact Ht'|]. exists j. split; [lia|].
        rewrite Ht'. symmetry. exact Et0.
      * exists []. split; [symmetry; apply app_nil_r | constructor].
  - injection Hrun as <- <-. split; [|split].
    + intros k _. split; [apply grown_refl | tauto].
    + reflexivity.
    + exists []. split; [symmetry; apply app_nil_r | constructor].
Qed.

Lemma inner_frame d l0 i js : forall l log,
  (forall j, In j js -> i < j < length l) ->
  Forall (aspect_bounds (length d)) l -> spans l = spans l0 ->
  exists l' log', disambiguate_inner d i js (l, log) = Ok (l', log') /\
    Forall (aspect_bounds (length d)) l' /\ spans l' = spans l0 /\
    (forall k, k < length l ->
       grown (nth k l default_aspect) (nth k l' default_aspect) /\
       (within_caps (nth k l default_aspect) -> within_caps (nth k l' default_aspect))) /\
    (forall k, unique_text d l0 k -> nth k l' default_aspect = nth k l default_aspect) /\
    (exists ws, log' = log ++ ws /\ Forall (warning_ok d l0) ws).
Proof.
  induction js as [|j js IH]; intros l log Hjs Hb Hs.
  - exists l, log. split; [reflexivity|]. split; [exact Hb|]. split; [exact Hs|].
    split; [intros k _; split; [apply grown_refl | tauto]|].
    split; [reflexivity|]. exists []. split; [symmetry; apply app_nil_r | constructor].
  - destruct (Hjs j (or_introl eq_refl)) as [Hij Hj].
    destruct (pair_frame d l0 i j l log Hij Hj Hb Hs)
      as (l1 & log1 & Hrun1 & Hb1 & Hs1 & Hg1 & Hu1 & ws1 & Hw1 & Hwo1).
    assert (Hlen : length l1 = length l).
    { apply spans_length. rewrite Hs1, Hs. reflexivity. }
    destruct (IH l1 log1) as (l' & log' & Hrun & Hb' & Hs' & Hg' & Hu' & ws & Hw & Hwo);
      [intros k Hk; rewrite Hlen; apply Hjs; right; exact Hk | exact Hb1 | exact Hs1 |].
    exists l', log'. split; [cbn [disambiguate_inner]; rewrite Hrun1; exact Hrun|].
    split; [exact Hb'|]. split; [exact Hs'|]. split.
    + intros k Hk. destruct (Hg1 k Hk) as [G1 C1].
      destruct (Hg' k ltac:(lia)) as [G2 C2].
      split; [eapply grown_trans; eassumption | auto].
    + split; [intros k Hk; rewrite (Hu' k Hk); apply Hu1; exact Hk|].
      exists (ws1 ++ ws). split; [rewrite Hw, Hw1, app_assoc; reflexivity|].
      apply Forall_app. split; assumption.
Qed.

Lemma outer_frame d l0 n is_ : forall l log,
  n = length l -> (forall i, In i is_ -> i < n) ->
  Forall (aspect_bounds (length d)) l -> spans l = spans l0 ->
  exists l' log', disambiguate_outer d n is_ (l, log) = Ok (l', log') /\
    Forall (aspect_bounds (length d)) l' /\ spans l' = spans l0 /\
    (forall k, k < length l ->
       grown (nth k l default_aspect) (nth k l' default_aspect) /\
       (within_caps (nth k l default_aspect) -> within_caps (nth k l' default_aspect))) /\
    (forall k, unique_text d l0 k -> nth k l' default_aspect = nth k l default_aspect) /\
    (exists ws, log' = log ++ ws /\ Forall (warning_ok d l0) ws).
Proof.
  induction is_ as [|i is_ IH]; intros l log Hn His Hb Hs.
  - exists l, log. split; [reflexivity|]. split; [exact Hb|]. split; [exact Hs|].
    split; [intros k _; split; [apply grown_refl | tauto]|].
    split; [reflexivity|]. exists []. split; [symmetry; apply app_nil_r | constructor].
  - destruct (inner_frame d l0 i (range (i + 1) n) l log)
      as (l1 & log1 & Hrun1 & Hb1 & Hs1 & Hg1 & Hu1 & ws1 & Hw1 & Hwo1);
      [intros j Hj; apply in_range in Hj; lia | exact Hb | exact Hs |].
    assert (Hlen : length l1 = length l).
    { apply spans_length. rewrite Hs1, Hs. reflexivity. }
    destruct (IH l1 log1) as (l' & log' & Hrun & Hb' & Hs' & Hg' & Hu' & ws & Hw & Hwo);
      [lia | intros k Hk; apply His; right; exact Hk | exact Hb1 | exact Hs1 |].
    exists l', log'. split; [cbn [disambiguate_outer]; rewrite Hrun1; exact Hrun|].
    split; [exact Hb'|]. split; [exact Hs'|]. split.
    + intros k Hk. destruct (Hg1 k Hk) as [G1 C1].
      destruct (Hg' k ltac:(lia)) as [G2 C2].
      split; [eapply grown_trans; eassumption | auto].
    + split; [intros k Hk; rewrite (Hu' k Hk); apply Hu1; exact Hk|].
      exists (ws1 ++ ws). split; [rewrite Hw, Hw1, app_assoc; reflexivity|].
      apply Forall_app. split; assumption.
Qed.

Lemma disambiguate_frame d l :
  Forall (aspect_bounds (length d)) l ->
  exists l' log, disambiguate d l = Ok (l', log) /\
    Forall (aspect_bounds (length d)) l' /\ spans l' = spans l /\
    (forall k, k < length l ->
       grown (nth k l default_aspect) (nth k l' default_aspect) /\
       (within_caps (nth k l default_aspect) -> within_caps (nth k l' default_aspect))) /\
    (forall k, unique_text d l k -> nth k l' default_aspect = nth k l default_aspect) /\
    Forall (warning_ok d l) log.
Proof.
  intro Hb. unfold disambiguate.
  destruct (outer_frame d l (length l) (range 0 (length l - 1)) l [])
    as (l' & log & Hrun & Hb' & Hs' & Hg & Hu & ws & Hw & Hwo);
    [reflexivity | intros i Hi; apply in_range in Hi; lia | exact Hb | reflexivity |].
  exists l', log. split; [exact Hrun|]. split; [exact Hb'|]. split; [exact Hs'|].
  split; [exact Hg|]. split; [exact Hu|]. rewrite Hw. exact Hwo.
Qed.

(** X6: the disambiguator only widens contexts.  Starting from aspects with
    no expansion yet (as the scanner and merger build them), each aspect
    keeps its reduced span, its context start moves left by its
    [_expansion_left] and its context stop right by its [_expansion_right],
    and these stay within 2 and 3. *)
Theorem X6_disambiguation_growth d l :
  Forall (aspect_bounds (length d)) l ->
  Forall (fun a => _expansion_left a = 0 /\ _expansion_right a = 0) l ->
  exists l' log, disambiguate d l = Ok (l', log) /\ length l' = length l /\
    forall k, k < length l ->
      let a := nth k l default_aspect in
      let a' := nth k l' default_aspect in
      start a' = start a /\ stop a' = stop a /\
      context_start a' + _expansion_left a' = context_start a /\
      context_stop a' = context_stop a + _expansion_right a' /\
      _expansion_left a' <= MAX_EXPANSION_LEFT /\
      _expansion_right a' <= MAX_EXPANSION_RIGHT.
Proof.
  intros Hb H0.
  destruct (disambiguate_frame d l Hb) as (l' & log & Hrun & _ & Hs & Hg & _).
  exists l', log. split; [exact Hrun|]. split; [apply spans_length; exact Hs|].
  intros k Hk. cbv zeta.
  rewrite Forall_forall in H0.
  destruct (H0 (nth k l default_aspect) (nth_In _ _ Hk)) as [El Er].
  destruct (Hg k Hk) as [[G1 [G2 [G3 [G4 _]]]] C].
  destruct C as [C1 C2]; [unfold within_caps; rewrite El, Er; cbn; lia|].
  rewrite El in G3. rewrite Er in G4. lia.
Qed.

Lemma X6_disambiguation_growth_witness :
  exists l' log, disambiguate doc_acting5 acting5_chunks = Ok (l', log) /\
    context_start (nth 3 l' default_aspect) + _expansion_left (nth 3 l' default_aspect) = 3.
Proof.
  destruct (X6_disambiguation_growth doc_acting5 acting5_chunks) as (l' & log & Hrun & _ & H);
    [vm_compute; repeat constructor | vm_compute; repeat constructor |].
  exists l', log. split; [exact Hrun|].
  destruct (H 3 ltac:(vm_compute; lia)) as (_ & _ & H3 & _). exact H3.
Defined.

(** X7: an aspect whose reduced text occurs only once in the list is left
    untouched by the disambiguator: same context, expansion counters and
    ordinal. *)
Theorem X7_unique_untouched d l :
  Forall (aspect_bounds (length d)) l ->
  exists l' log, disambiguate d l = Ok (l', log) /\ length l' = length l /\
    forall k, unique_text d l k -> nth k l' default_aspect = nth k l default_aspect.
Proof.
  intro Hb.
  destruct (disambiguate_frame d l Hb) as (l' & log & Hrun & _ & Hs & _ & Hu & _).
  exists l', log. split; [exact Hrun|]. split; [apply spans_length; exact Hs | exact Hu].
Qed.

Lemma X7_unique_untouched_witness :
  exists l' log, disambiguate doc_acting_plot acting_plot_chunks = Ok (l', log) /\
    nth 1 l' default_aspect = new_aspect 1 2 (Some 1) (Some 2).
Proof.
  destruct (X7_unique_untouched doc_acting_plot acting_plot_chunks) as (l' & log & Hrun & _ & Hu);
    [vm_compute; repeat constructor |].
  exists l', log. split; [exact Hrun|]. rewrite Hu; [reflexivity|].
  intros m Hm Hne. vm_compute in Hm.
  destruct m as [|[|[|m]]]; [vm_compute; discriminate | lia | vm_compute; discriminate | lia].
Defined.

(** X8: on a list whose reduced texts are pairwise distinct the disambiguator
    changes nothing and logs nothing. *)
Theorem X8_distinct_texts d l :
  Forall (aspect_bounds (length d)) l ->
  (forall k, k < length l -> unique_text d l k) ->
  disambiguate d l = Ok (l, []).
Proof.
  intros Hb Hall.
  destruct (disambiguate_frame d l Hb) as (l' & log & Hrun & _ & Hs & _ & Hu & Hw).
  assert (Hlen : length l' = length l) by (apply spans_length; exact Hs).
  replace l' with l in Hrun.
  2:{ apply (nth_ext l l' default_aspect default_aspect); [symmetry; exact Hlen|].
      intros k Hk. symmetry. apply Hu, Hall, Hk. }
  destruct log as [|w log]; [exact Hrun|].
  exfalso. inv Hw. destruct H1 as [Ht [j [Hj Hjt]]].
  apply (Hall (fst w) ltac:(lia) j); [lia | lia|]. rewrite Hjt. exact Ht.
Qed.

Lemma X8_distinct_texts_witness :
  disambiguate doc_acting_plot (firstn 2 acting_plot_chunks) = Ok (firstn 2 acting_plot_chunks, []).
Proof.
  apply X8_distinct_texts; [vm_compute; repeat constructor|].
  intros k Hk m Hm Hne. vm_compute in Hk, Hm.
  destruct k as [|[|k]]; destruct m as [|[|m]]; try lia; vm_compute; discriminate.
Defined.

(** X9: every warning [(i, text)] the disambiguator logs carries the reduced
    text of aspect [i], and a later aspect of the list has that same reduced
    text. *)
Theorem X9_warning_content d l :
  Forall (aspect_bounds (length d)) l ->
  exists l' log, disambiguate d l = Ok (l', log) /\
    Forall (fun w => snd w = aspect_text d (nth (fst w) l default_aspect) /\
                     exists j, fst w < j < length l /\
                               aspect_text d (nth j l default_aspect) = snd w) log.
Proof.
  intro Hb.
  destruct (disambiguate_frame d l Hb) as (l' & log & Hrun & _ & _ & _ & _ & Hw).
  exists l', log. split; [exact Hrun | exact Hw].
Qed.

Lemma X9_warning_content_witness :
  exists l', disambiguate doc_acting2 acting2_chunks = Ok (l', [(0, "acting")]) /\
    exists j, 0 < j < 2 /\ aspect_text doc_acting2 (nth j acting2_chunks default_aspect) = "acting".
Proof.
  destruct (X9_warning_content doc_acting2 acting2_chunks) as (l' & log & Hrun & Hw);
    [vm_compute; repeat constructor |].
  assert (Hlog : log = [(0, "acting")]).
  { vm_compute in Hrun. injection Hrun as _ <-. reflexivity. }
  subst log. exists l'. split; [exact Hrun|].
  inv Hw. destruct H1 as [_ [j [Hj Ht]]]. exists j. exact (conj Hj Ht).
Defined.

(** X10: the [while aspects[i] == aspects[j]] loop of one pair ends after at
    most 11 tests: each pass that does not break uses up one of the at most
    2 + 3 expansions of each aspect, so allowing more passes changes
    nothing. *)
Theorem X10_while_terminates d ai aj :
  aspect_bounds (length d) ai -> aspect_bounds (length d) aj ->
  expand_while_fuel ai aj <= 11 /\
  forall n, expand_while_fuel ai aj <= n ->
    expand_while d n ai aj = expand_while d (expand_while_fuel ai aj) ai aj.
Proof.
  intros Hi Hj. split.
  - unfold expand_while_fuel, expansion_budget, MAX_EXPANSION_LEFT, MAX_EXPANSION_RIGHT. lia.
  - induction n as [|n IH]; intro Hn; [unfold expand_while_fuel in Hn; lia|].
    destruct (Nat.eq_dec (expand_while_fuel ai aj) (S n)) as [E|E]; [rewrite E; reflexivity|].
    rewrite expand_while_fuel_enough by (try assumption; unfold expand_while_fuel in *; lia).
    apply IH. lia.
Qed.

Lemma X10_while_terminates_witness :
  expand_while doc_acting2 100 (nth 0 acting2_chunks default_aspect)
               (nth 1 acting2_chunks default_aspect) =
  expand_while doc_acting2 11 (nth 0 acting2_chunks default_aspect)
               (nth 1 acting2_chunks default_aspect).
Proof.
  destruct (X10_while_terminates doc_acting2 (nth 0 acting2_chunks default_aspect)
              (nth 1 acting2_chunks default_aspect)) as [_ H];
    [vm_compute; repeat constructor | vm_compute; repeat constructor |].
  rewrite (H 100) by (vm_compute; lia). rewrite (H 11) by (vm_compute; lia). reflexivity.
Defined.

(** *** __call__ over several texts *)

(** X11: on parsed documents (each token's [left_edge] at or before it)
    [__call__] raises no error and returns one aspect list per document, in
    order, each the result for that document alone. *)
Theorem X11_extract_all docs :
  Forall doc_wf docs ->
  exists ls, extract docs = Ok ls /\ length ls = length docs /\
    forall k, k < length docs ->
      exists log, extract_doc (nth k docs []) = Ok (nth k ls [], log).
Proof.
  induction docs as [|d docs IH]; intro Hw.
  - exists []. split; [reflexivity|]. split; [reflexivity | intros k Hk; cbn in Hk; lia].
  - inv Hw. destruct (IH H2) as (ls & Hls & Hlen & Hk).
    destruct (extract_doc_ok d H1) as [[l log] [Hd _]].
    exists (l :: ls). split; [cbn [extract]; rewrite Hd; cbn [bind]; rewrite Hls; reflexivity|].
    split; [cbn; lia|].
    intros [|k] Hk'; [exists log; exact Hd|]. cbn in Hk'. apply Hk. lia.
Qed.

Lemma X11_extract_all_witness :
  exists ls, extract [doc_acting5; doc_overall] = Ok ls /\ length ls = 2.
Proof.
  destruct (X11_extract_all [doc_acting5; doc_overall]) as (ls & H & Hlen & _).
  - constructor; [|constructor; [|constructor]]; apply doc_wfb_spec; vm_compute; reflexivity.
  - exists ls. split; [exact H | exact Hlen].
Defined.
